(** * book-3d: the book interaction state machine of [src/book/book.ts]

    A shallow embedding of the [Book] class: the spread index, the cover
    animation, the page-turn animation and the transient objects of a turn.

    Modelling conventions.
    - A JavaScript [number] is a double.  Its finite values are rationals
      ([Q]); NaN and the infinities are not modelled.  The rounding of the
      arithmetic is a parameter of the model ([Arith]): [binary64] rounds
      every sum, difference, product, quotient and decimal literal to the
      nearest double, as the language does; [unrounded] rounds nothing.
      What is proved for every arithmetic holds of the program; the theorems
      on angles are proved for [unrounded] and hold of the program up to
      rounding.  [Math.PI] is the rational value of the double.
      Comparisons, [Math.min], [Math.max], negation, the halving of
      [Math.PI] and [spreads.length - 1] are exact on doubles and are not
      rounded.  Division by zero, which JavaScript answers with an infinity
      or NaN, only occurs for a zero animation duration, and the invariants
      hold whichever way the completion test of [update] goes.
    - [performance.now()] is an input of every operation that reads it
      ([update] reads it once per animation branch, hence two readings).
    - An object of the scene is named by a constructor ([leftPage],
      [pivotR], ...) and its mutable properties are fields of [Book];
      objects created at run time carry the serial number of their creation,
      which stands for reference identity.
    - A method that can throw returns the state it leaves behind together
      with the exception, if any: the mutations made before a [throw] stay.
    - The optional callbacks are recorded in a log of notices.
    - What no operation reads back is left out: the dimensions and the
      geometry built by the constructor, the cover and paper textures, the
      [needsUpdate] flags and the text of the page-info element. *)

From Stdlib Require Import QArith Lqa ZArith Lia.
From stdpp Require Import gmap strings list pretty.

Local Open Scope Q_scope.

(** ** Numbers *)

Definition Math_PI : Q := 884279719003555 # 281474976710656.

(** [x < y], [x >= y] and [x === y] on numbers. *)
Definition js_lt (x y : Q) : bool := negb (Qle_bool y x).
Definition js_ge (x y : Q) : bool := Qle_bool y x.
Definition js_le (x y : Q) : bool := Qle_bool x y.
Definition strict_eq (x y : Q) : bool := Qeq_bool x y.

Definition Math_min (a b : Q) : Q := if Qle_bool b a then b else a.
Definition Math_max (a b : Q) : Q := if Qle_bool a b then b else a.

(** [THREE.MathUtils.clamp]. *)
Definition clamp (value min max : Q) : Q := Math_max min (Math_min max value).

(** [Number.isInteger], and the array index a number denotes: [a[q]] is
    [undefined] unless [q] is a non-negative integer. *)
Definition isInteger (q : Q) : bool :=
  (Z.rem (Qnum q) (Zpos (Qden q)) =? 0)%Z.

Definition array_index (q : Q) : option nat :=
  if isInteger q && (0 <=? Qnum q)%Z
  then Some (Z.to_nat (Qnum q / Zpos (Qden q)))
  else None.

Definition of_nat (n : nat) : Q := inject_Z (Z.of_nat n).

(** *** Rounding

    [round x] is the number an arithmetic operation returns when its exact
    result is [x], and the number a decimal literal [x] denotes.
    [Math_pow3 x] is [Math.pow(x, 3)], which the language leaves
    implementation-approximated.  The sum, difference or product of two
    integers is an integer once rounded, and is exact below [2^53]. *)
Class Arith : Type := mkArith {
  round : Q -> Q;
  Math_pow3 : Q -> Q;
  round_integer : forall q, isInteger q = true -> isInteger (round q) = true;
  round_small_integer : forall q,
    isInteger q = true -> - (2 ^ 53) < q -> q < 2 ^ 53 -> round q == q
}.

(** Arithmetic without rounding. *)
Definition unrounded : Arith :=
  mkArith (fun x => x) (fun x => x ^ 3) (fun q H => H) (fun q _ _ _ => Qeq_refl q).

(** Double arithmetic: [round64 x] is the double nearest to [x], ties to the
    even significand; 53 bits of significand, the least exponent that of the
    subnormals.  The results stay below [2^1024]. *)
Definition pow2 (k : Z) : Z := (2 ^ Z.max 0 k)%Z.

Definition round64 (x : Q) : Q :=
  let q := Qred x in
  let n := Z.abs (Qnum q) in
  let d := Zpos (Qden q) in
  if (n =? 0)%Z then 0
  else
    let e0 := (Z.log2 n - Z.log2 d)%Z in
    let e := if (n * pow2 (- e0) <? d * pow2 e0)%Z then (e0 - 1)%Z else e0 in
    let ex := Z.max (e - 52) (-1074) in
    let num := (n * pow2 (- ex))%Z in
    let den := (d * pow2 ex)%Z in
    let fl := (num / den)%Z in
    let r := (num mod den)%Z in
    let m := if (2 * r <? den)%Z then fl
             else if (den <? 2 * r)%Z then (fl + 1)%Z
             else if Z.even fl then fl else (fl + 1)%Z in
    Qred (Qmake (Z.sgn (Qnum q) * m * pow2 ex) (Z.to_pos (pow2 (- ex)))).

Section Model.

Context {arith : Arith}.

(** [x + y], [x - y], [x * y], [x / y] and a decimal literal. *)
Definition fadd (x y : Q) : Q := round (x + y).
Definition fsub (x y : Q) : Q := round (x - y).
Definition fmul (x y : Q) : Q := round (x * y).
Definition fdiv (x y : Q) : Q := round (x / y).
Definition literal (x : Q) : Q := round x.

(** [THREE.MathUtils.lerp]. *)
Definition lerp (x y t : Q) : Q := fadd (fmul (fsub 1 t) x) (fmul t y).

(** The local [easeInOut] of [update]. *)
Definition easeInOut (x : Q) : Q :=
  if js_lt x (1 # 2) then fmul (fmul (fmul 4 x) x) x
  else fsub 1 (fdiv (Math_pow3 (fadd (fmul (-2) x) 2)) 2).

(** ** Data model *)

(** A texture handle: one supplied by the caller, or the mirrored duplicate
    made by [cloneFlipX] (repeat [(-1, 1)], offset [(1, 0)]), identified by
    its creation serial. *)
Inductive Texture : Type :=
  | Tex (handle : nat)
  | FlipXClone (serial : nat) (source : Texture).

(** A spread; [None] is a missing ([undefined] or [null]) texture. *)
Record Spread : Type := mkSpread {
  left : option Texture;
  right : option Texture
}.

Inductive Error : Type :=
  | ConfigError (message : string)
  | TypeError.

Inductive StaticMesh : Type := leftPage | rightPage | underLeft | underRight.
Inductive Hinge : Type := pivotL | pivotR.
Inductive Material : Type := leftMat | rightMat | underMatL | underMatR.
Inductive Side : Type := FrontSide | BackSide.
Inductive TurnGeometry : Type := geoTurnL | geoTurnR.

(** A transient mesh of the turning sheet, with its own material. *)
Record TurnMesh : Type := mkTurnMesh {
  mesh_id : nat;
  mesh_geometry : TurnGeometry;
  mesh_side : Side;
  mesh_map : option Texture;
  mesh_z : Q;
  mesh_renderOrder : Z
}.

Record Pivot : Type := mkPivot {
  rotation_y : Q;
  children : list TurnMesh
}.

Record CoverState : Type := mkCover {
  cover_open : bool;
  cover_t0 : Q;
  cover_anim : bool;
  leftOpenRot : Q;
  rightOpenRot : Q;
  leftClosedRot : Q;
  rightClosedRot : Q
}.

Record FlipState : Type := mkFlip {
  flip_active : bool;
  flip_dir : Q;
  flip_t0 : Q;
  flip_pivot : option Hinge;
  flip_hidden : option StaticMesh;
  flip_frontMesh : option TurnMesh;
  flip_backMesh : option TurnMesh;
  flip_under : option StaticMesh;
  flip_other : option StaticMesh;
  flip_otherWasVisible : bool
}.

Inductive Notice : Type :=
  | onCoverToggle (isOpen : bool)
  | onSpreadChange (index : Q) (total : nat).

Record Visibility : Type := mkVisibility {
  leftPage_visible : bool;
  rightPage_visible : bool;
  underLeft_visible : bool;
  underRight_visible : bool
}.

Record Materials : Type := mkMaterials {
  leftMat_map : option Texture;
  rightMat_map : option Texture;
  underMatL_map : option Texture;
  underMatR_map : option Texture
}.

(** The rotations driven by the cover animation. *)
Record CoverRig : Type := mkRig {
  leftCoverPivot_rotation : Q;
  rightCoverPivot_rotation : Q;
  halfL_rotation : Q;
  halfR_rotation : Q
}.

Record Book : Type := mkBook {
  spreads : list Spread;
  speeds_cover : Q;
  speeds_flip : Q;
  spreadIndex : Q;
  flippedCache : gmap string Texture;
  textures_created : nat;
  meshes_created : nat;
  materials : Materials;
  visibility : Visibility;
  pivotL_node : Pivot;
  pivotR_node : Pivot;
  rig : CoverRig;
  cover : CoverState;
  flip : FlipState;
  notices : list Notice
}.

(** The outcome of a call: the state it leaves and the exception thrown. *)
Definition Outcome : Type := (Book * option Error)%type.

(** ** Field updates *)

Definition set_spreadIndex (i : Q) (s : Book) : Book :=
  mkBook (spreads s) (speeds_cover s) (speeds_flip s) i (flippedCache s)
    (textures_created s) (meshes_created s) (materials s) (visibility s)
    (pivotL_node s) (pivotR_node s) (rig s) (cover s) (flip s) (notices s).

Definition set_flippedCache (c : gmap string Texture) (n : nat) (s : Book) : Book :=
  mkBook (spreads s) (speeds_cover s) (speeds_flip s) (spreadIndex s) c
    n (meshes_created s) (materials s) (visibility s)
    (pivotL_node s) (pivotR_node s) (rig s) (cover s) (flip s) (notices s).

Definition set_meshes_created (n : nat) (s : Book) : Book :=
  mkBook (spreads s) (speeds_cover s) (speeds_flip s) (spreadIndex s)
    (flippedCache s) (textures_created s) n (materials s) (visibility s)
    (pivotL_node s) (pivotR_node s) (rig s) (cover s) (flip s) (notices s).

Definition set_materials (m : Materials) (s : Book) : Book :=
  mkBook (spreads s) (speeds_cover s) (speeds_flip s) (spreadIndex s)
    (flippedCache s) (textures_created s) (meshes_created s) m (visibility s)
    (pivotL_node s) (pivotR_node s) (rig s) (cover s) (flip s) (notices s).

Definition set_visibility (v : Visibility) (s : Book) : Book :=
  mkBook (spreads s) (speeds_cover s) (speeds_flip s) (spreadIndex s)
    (flippedCache s) (textures_created s) (meshes_created s) (materials s) v
    (pivotL_node s) (pivotR_node s) (rig s) (cover s) (flip s) (notices s).

Definition set_pivot (h : Hinge) (p : Pivot) (s : Book) : Book :=
  mkBook (spreads s) (speeds_cover s) (speeds_flip s) (spreadIndex s)
    (flippedCache s) (textures_created s) (meshes_created s) (materials s)
    (visibility s)
    match h with pivotL => p | pivotR => pivotL_node s end
    match h with pivotL => pivotR_node s | pivotR => p end
    (rig s) (cover s) (flip s) (notices s).

Definition set_rig (r : CoverRig) (s : Book) : Book :=
  mkBook (spreads s) (speeds_cover s) (speeds_flip s) (spreadIndex s)
    (flippedCache s) (textures_created s) (meshes_created s) (materials s)
    (visibility s) (pivotL_node s) (pivotR_node s) r (cover s) (flip s)
    (notices s).

Definition set_cover (c : CoverState) (s : Book) : Book :=
  mkBook (spreads s) (speeds_cover s) (speeds_flip s) (spreadIndex s)
    (flippedCache s) (textures_created s) (meshes_created s) (materials s)
    (visibility s) (pivotL_node s) (pivotR_node s) (rig s) c (flip s)
    (notices s).

Definition set_flip (f : FlipState) (s : Book) : Book :=
  mkBook (spreads s) (speeds_cover s) (speeds_flip s) (spreadIndex s)
    (flippedCache s) (textures_created s) (meshes_created s) (materials s)
    (visibility s) (pivotL_node s) (pivotR_node s) (rig s) (cover s) f
    (notices s).

Definition notify (n : Notice) (s : Book) : Book :=
  mkBook (spreads s) (speeds_cover s) (speeds_flip s) (spreadIndex s)
    (flippedCache s) (textures_created s) (meshes_created s) (materials s)
    (visibility s) (pivotL_node s) (pivotR_node s) (rig s) (cover s) (flip s)
    (notices s ++ [n]).

(** [m.visible] and [m.visible = b]. *)
Definition visible (m : StaticMesh) (s : Book) : bool :=
  match m with
  | leftPage => leftPage_visible (visibility s)
  | rightPage => rightPage_visible (visibility s)
  | underLeft => underLeft_visible (visibility s)
  | underRight => underRight_visible (visibility s)
  end.

Definition set_visible (m : StaticMesh) (b : bool) (s : Book) : Book :=
  let v := visibility s in
  set_visibility
    match m with
    | leftPage =>
        mkVisibility b (rightPage_visible v) (underLeft_visible v) (underRight_visible v)
    | rightPage =>
        mkVisibility (leftPage_visible v) b (underLeft_visible v) (underRight_visible v)
    | underLeft =>
        mkVisibility (leftPage_visible v) (rightPage_visible v) b (underRight_visible v)
    | underRight =>
        mkVisibility (leftPage_visible v) (rightPage_visible v) (underLeft_visible v) b
    end s.

(** [mat.map] and [mat.map = t]. *)
Definition map_of (m : Material) (s : Book) : option Texture :=
  match m with
  | leftMat => leftMat_map (materials s)
  | rightMat => rightMat_map (materials s)
  | underMatL => underMatL_map (materials s)
  | underMatR => underMatR_map (materials s)
  end.

Definition set_map (m : Material) (t : option Texture) (s : Book) : Book :=
  let ms := materials s in
  set_materials
    match m with
    | leftMat => mkMaterials t (rightMat_map ms) (underMatL_map ms) (underMatR_map ms)
    | rightMat => mkMaterials (leftMat_map ms) t (underMatL_map ms) (underMatR_map ms)
    | underMatL => mkMaterials (leftMat_map ms) (rightMat_map ms) t (underMatR_map ms)
    | underMatR => mkMaterials (leftMat_map ms) (rightMat_map ms) (underMatL_map ms) t
    end s.

(** The hinge nodes: rotation and children. *)
Definition pivot (h : Hinge) (s : Book) : Pivot :=
  match h with pivotL => pivotL_node s | pivotR => pivotR_node s end.

Definition set_rotation (h : Hinge) (r : Q) (s : Book) : Book :=
  set_pivot h (mkPivot r (children (pivot h s))) s.

(** [Object3D.remove]: drops the first child that is the given object. *)
Fixpoint remove_child (id : nat) (l : list TurnMesh) : list TurnMesh :=
  match l with
  | [] => []
  | c :: l' => if Nat.eqb (mesh_id c) id then l' else c :: remove_child id l'
  end.

Definition pivot_remove (h : Hinge) (m : TurnMesh) (s : Book) : Book :=
  set_pivot h (mkPivot (rotation_y (pivot h s))
                       (remove_child (mesh_id m) (children (pivot h s)))) s.

(** [Object3D.add] of freshly created objects, which have no parent yet. *)
Definition pivot_add (h : Hinge) (ms : list TurnMesh) (s : Book) : Book :=
  set_pivot h (mkPivot (rotation_y (pivot h s)) (children (pivot h s) ++ ms)) s.

(** [this.spreads[i]], with the index it denotes. *)
Definition spread_at (i : Q) (s : Book) : option (nat * Spread) :=
  match array_index i with
  | Some n => match spreads s !! n with Some sp => Some (n, sp) | None => None end
  | None => None
  end.

(** ** Operations *)

(** [cloneFlipX]: a fresh mirrored duplicate of [tex]. *)
Definition cloneFlipX (tex : Texture) (s : Book) : Texture :=
  FlipXClone (textures_created s) tex.

(** [getFlippedTex].  On a miss the source is cloned, which throws on a
    missing texture. *)
Definition getFlippedTex (tex : option Texture) (cacheId : string) (s : Book)
  : Book * (Texture + Error) :=
  match flippedCache s !! cacheId with
  | Some t => (s, inl t)
  | None =>
      match tex with
      | None => (s, inr TypeError)
      | Some tx =>
          let t := cloneFlipX tx s in
          (set_flippedCache (<[cacheId := t]> (flippedCache s))
             (S (textures_created s)) s, inl t)
      end
  end.

(** [setSpread].  Reading [spread.left] throws when the clamped index does
    not name a spread. *)
Definition setSpread (i : Q) (s : Book) : Outcome :=
  let s := set_spreadIndex (clamp i 0 (of_nat (length (spreads s)) - 1)) s in
  match spread_at (spreadIndex s) s with
  | None => (s, Some TypeError)
  | Some (_, spread) =>
      let s := set_map leftMat (left spread) s in
      let s := set_map rightMat (right spread) s in
      (notify (onSpreadChange (spreadIndex s) (length (spreads s))) s, None)
  end.

Definition cleanupFlipMeshes (s : Book) : Book :=
  let s :=
    match flip_frontMesh (flip s) with
    | Some m =>
        let s := match flip_pivot (flip s) with
                 | Some h => pivot_remove h m s
                 | None => s
                 end in
        let f := flip s in
        set_flip (mkFlip (flip_active f) (flip_dir f) (flip_t0 f) (flip_pivot f)
                    (flip_hidden f) None (flip_backMesh f) (flip_under f)
                    (flip_other f) (flip_otherWasVisible f)) s
    | None => s
    end in
  let s :=
    match flip_backMesh (flip s) with
    | Some m =>
        let s := match flip_pivot (flip s) with
                 | Some h => pivot_remove h m s
                 | None => s
                 end in
        let f := flip s in
        set_flip (mkFlip (flip_active f) (flip_dir f) (flip_t0 f) (flip_pivot f)
                    (flip_hidden f) (flip_frontMesh f) None (flip_under f)
                    (flip_other f) (flip_otherWasVisible f)) s
    | None => s
    end in
  let s :=
    match flip_under (flip s) with
    | Some u =>
        let s := set_visible u false s in
        let f := flip s in
        set_flip (mkFlip (flip_active f) (flip_dir f) (flip_t0 f) (flip_pivot f)
                    (flip_hidden f) (flip_frontMesh f) (flip_backMesh f) None
                    (flip_other f) (flip_otherWasVisible f)) s
    | None => s
    end in
  let s :=
    match flip_other (flip s) with
    | Some o =>
        let s := set_visible o (flip_otherWasVisible (flip s)) s in
        let f := flip s in
        set_flip (mkFlip (flip_active f) (flip_dir f) (flip_t0 f) (flip_pivot f)
                    (flip_hidden f) (flip_frontMesh f) (flip_backMesh f)
                    (flip_under f) None (flip_otherWasVisible f)) s
    | None => s
    end in
  let f := flip s in
  set_flip (mkFlip (flip_active f) (flip_dir f) (flip_t0 f) (flip_pivot f)
              (flip_hidden f) (flip_frontMesh f) (flip_backMesh f)
              (flip_under f) (flip_other f) true) s.

Definition set_visible_opt (m : option StaticMesh) (b : bool) (s : Book) : Book :=
  match m with Some x => set_visible x b s | None => s end.

Definition endFlip (s : Book) : Outcome :=
  let otherToRestore := flip_other (flip s) in
  let s := set_visible_opt otherToRestore false s in
  let toReveal := flip_hidden (flip s) in
  let s := set_visible_opt toReveal false s in
  let s := cleanupFlipMeshes s in
  match setSpread (fadd (spreadIndex s) (flip_dir (flip s))) s with
  | (s, Some e) => (s, Some e)
  | (s, None) =>
      let s := set_visible_opt toReveal true s in
      let s := set_visible_opt otherToRestore true s in
      let f := flip s in
      (set_flip (mkFlip false 0 (flip_t0 f) None None (flip_frontMesh f)
                   (flip_backMesh f) (flip_under f) (flip_other f)
                   (flip_otherWasVisible f)) s, None)
  end.

Definition toggleCover (perf_now : Q) (s : Book) : Book :=
  if flip_active (flip s) || cover_anim (cover s) then s
  else
    let c := cover s in
    let s := set_cover (mkCover (negb (cover_open c)) (fdiv perf_now 1000) true
                          (leftOpenRot c) (rightOpenRot c)
                          (leftClosedRot c) (rightClosedRot c)) s in
    notify (onCoverToggle (cover_open (cover s))) s.

Definition zEps : Q := literal (12 # 10000).

(** The statements of [flipPage] after its guards, per branch, split where
    the reveal surface is prepared, the static page is hidden and the turning
    sheet is built.  [side] is the hinge of the turn: [pivotR] forward,
    [pivotL] backward. *)
Definition page_of (side : Hinge) : StaticMesh :=
  match side with pivotR => rightPage | pivotL => leftPage end.
Definition opposite_page_of (side : Hinge) : StaticMesh :=
  match side with pivotR => leftPage | pivotL => rightPage end.
Definition under_of (side : Hinge) : StaticMesh :=
  match side with pivotR => underRight | pivotL => underLeft end.
Definition underMat_of (side : Hinge) : Material :=
  match side with pivotR => underMatR | pivotL => underMatL end.
Definition pageMat_of (side : Hinge) : Material :=
  match side with pivotR => rightMat | pivotL => leftMat end.
Definition geoTurn_of (side : Hinge) : TurnGeometry :=
  match side with pivotR => geoTurnR | pivotL => geoTurnL end.
(** The texture of the next spread shown by the reveal surface, and the one
    mirrored on the back of the sheet. *)
Definition same_side (side : Hinge) (sp : Spread) : option Texture :=
  match side with pivotR => right sp | pivotL => left sp end.
Definition far_side (side : Hinge) (sp : Spread) : option Texture :=
  match side with pivotR => left sp | pivotL => right sp end.
Definition cacheId_of (side : Hinge) (nextIndex : nat) : string :=
  match side with
  | pivotR => "flip:" +:+ pretty nextIndex +:+ ":left"
  | pivotL => "flip:" +:+ pretty nextIndex +:+ ":right"
  end.

(** [flip.other = ...; flip.otherWasVisible = ...; under.visible = true]. *)
Definition flip_begin (side : Hinge) (s : Book) : Book :=
  let f := flip s in
  let s := set_flip (mkFlip (flip_active f) (flip_dir f) (flip_t0 f)
                       (flip_pivot f) (flip_hidden f) (flip_frontMesh f)
                       (flip_backMesh f) (flip_under f)
                       (Some (opposite_page_of side))
                       (visible (opposite_page_of side) s)) s in
  set_visible (under_of side) true s.

(** [underMat.map = nextSpread.<side>; flip.under = under]. *)
Definition flip_reveal (side : Hinge) (nextSpread : Spread) (s : Book) : Book :=
  let s := set_map (underMat_of side) (same_side side nextSpread) s in
  let f := flip s in
  set_flip (mkFlip (flip_active f) (flip_dir f) (flip_t0 f) (flip_pivot f)
              (flip_hidden f) (flip_frontMesh f) (flip_backMesh f)
              (Some (under_of side)) (flip_other f) (flip_otherWasVisible f)) s.

(** [page.visible = false; flip.hidden = page; flip.pivot = pivot;
    pivot.rotation.y = 0]. *)
Definition flip_hide (side : Hinge) (s : Book) : Book :=
  let s := set_visible (page_of side) false s in
  let f := flip s in
  let s := set_flip (mkFlip (flip_active f) (flip_dir f) (flip_t0 f)
                       (Some side) (Some (page_of side)) (flip_frontMesh f)
                       (flip_backMesh f) (flip_under f) (flip_other f)
                       (flip_otherWasVisible f)) s in
  set_rotation side 0 s.

(** The two meshes of the turning sheet and their attachment to the hinge. *)
Definition flip_sheet (side : Hinge) (nextIndex : nat) (nextSpread : Spread)
    (s : Book) : Outcome :=
  let frontTex := map_of (pageMat_of side) s in
  match getFlippedTex (far_side side nextSpread) (cacheId_of side nextIndex) s with
  | (s, inr e) => (s, Some e)
  | (s, inl backTex) =>
      let n := meshes_created s in
      let frontMesh :=
        mkTurnMesh n (geoTurn_of side) FrontSide frontTex (fmul zEps 10) 10 in
      let backMesh :=
        mkTurnMesh (S n) (geoTurn_of side) BackSide (Some backTex) (fmul zEps 10) 10 in
      let s := set_meshes_created (S (S n)) s in
      let f := flip s in
      let s := set_flip (mkFlip (flip_active f) (flip_dir f) (flip_t0 f)
                           (flip_pivot f) (flip_hidden f) (Some frontMesh)
                           (Some backMesh) (flip_under f) (flip_other f)
                           (flip_otherWasVisible f)) s in
      (pivot_add side [frontMesh; backMesh] s, None)
  end.

Definition flip_branch (side : Hinge) (nextIndex : Q) (s : Book) : Outcome :=
  let s := flip_begin side s in
  match spread_at nextIndex s with
  | None => (s, Some TypeError)
  | Some (n, nextSpread) =>
      flip_sheet side n nextSpread (flip_hide side (flip_reveal side nextSpread s))
  end.

(** The guards of [flipPage]: [true] when the call goes through. *)
Definition flip_accepts (dir : Q) (s : Book) : bool :=
  negb (negb (cover_open (cover s)) || cover_anim (cover s))
  && negb (flip_active (flip s))
  && negb (js_lt (fadd (spreadIndex s) dir) 0
           || js_ge (fadd (spreadIndex s) dir) (of_nat (length (spreads s)))).

(** [flip.active = true; flip.dir = dir; flip.t0 = performance.now() / 1000]. *)
Definition flip_start (dir : Q) (perf_now : Q) (s : Book) : Book :=
  let f := flip s in
  set_flip (mkFlip true dir (fdiv perf_now 1000) (flip_pivot f)
              (flip_hidden f) (flip_frontMesh f) (flip_backMesh f)
              (flip_under f) (flip_other f) (flip_otherWasVisible f)) s.

Definition flipPage (dir : Q) (perf_now : Q) (s : Book) : Outcome :=
  if negb (cover_open (cover s)) || cover_anim (cover s) then (s, None)
  else if flip_active (flip s) then (s, None)
  else
    let nextIndex := fadd (spreadIndex s) dir in
    if js_lt nextIndex 0 || js_ge nextIndex (of_nat (length (spreads s)))
    then (s, None)
    else
      let s := flip_start dir perf_now s in
      if strict_eq dir 1 then flip_branch pivotR nextIndex s
      else flip_branch pivotL nextIndex s.

(** The hinge of a turn in direction [dir]: only [dir === 1] goes forward. *)
Definition hinge_of_dir (dir : Q) : Hinge :=
  if strict_eq dir 1 then pivotR else pivotL.

Definition other_hinge (h : Hinge) : Hinge :=
  match h with pivotL => pivotR | pivotR => pivotL end.

(** The cover part of [update]; [cover.leftPivot] and [cover.rightPivot] are
    set by the constructor and never cleared. *)
Definition hide_unders_if_idle (s : Book) : Book :=
  if negb (flip_active (flip s))
  then set_visible underRight false (set_visible underLeft false s)
  else s.

(** The progress of the cover animation at a clock reading. *)
Definition cover_u (perf_now : Q) (s : Book) : Q :=
  let now := fdiv perf_now 1000 in
  Math_min 1 (fdiv (fsub now (cover_t0 (cover s))) (speeds_cover s)).

Definition update_cover (perf_now : Q) (s : Book) : Book :=
  let c := cover s in
  if cover_anim c then
    let u := cover_u perf_now s in
    let k := easeInOut u in
    let a := if cover_open c then k else fsub 1 k in
    let s := set_rig (mkRig (lerp (leftClosedRot c) (leftOpenRot c) a)
                            (lerp (rightClosedRot c) (rightOpenRot c) a)
                            (lerp (Math_PI / 2) 0 a)
                            (lerp (- Math_PI / 2) 0 a)) s in
    let s := hide_unders_if_idle s in
    if js_ge u 1
    then set_cover (mkCover (cover_open c) (cover_t0 c) false
                      (leftOpenRot c) (rightOpenRot c)
                      (leftClosedRot c) (rightClosedRot c)) s
    else s
  else
    let closed := negb (cover_open c) in
    let s := set_rig (mkRig (if cover_open c then leftOpenRot c else leftClosedRot c)
                            (if cover_open c then rightOpenRot c else rightClosedRot c)
                            (if closed then Math_PI / 2 else 0)
                            (if closed then - Math_PI / 2 else 0)) s in
    hide_unders_if_idle s.

(** The progress of the turn at a clock reading. *)
Definition flip_u (perf_now : Q) (s : Book) : Q :=
  let now := fdiv perf_now 1000 in
  Math_min 1 (fdiv (fsub now (flip_t0 (flip s))) (speeds_flip s)).

(** The statements of the turn part of [update] before the completion test. *)
Definition advance (h : Hinge) (perf_now : Q) (s : Book) : Book :=
  let k := easeInOut (flip_u perf_now s) in
  let s := match flip_other (flip s) with
           | Some o =>
               set_visible o (if js_le k (literal (55 # 100))
                              then flip_otherWasVisible (flip s)
                              else false) s
           | None => s
           end in
  set_rotation h
    (fmul (if strict_eq (flip_dir (flip s)) 1 then - Math_PI else Math_PI) k) s.

Definition update_flip (perf_now : Q) (s : Book) : Outcome :=
  match flip_active (flip s), flip_pivot (flip s) with
  | true, Some h =>
      let u := flip_u perf_now s in
      let s := advance h perf_now s in
      if js_ge u 1 then endFlip s else (s, None)
  | _, _ => (s, None)
  end.

(** [update]: the cover animation first, then the turn. *)
Definition update (now_cover now_flip : Q) (s : Book) : Outcome :=
  update_flip now_flip (update_cover now_cover s).

(** ** Construction *)

Record BookConfig : Type := mkConfig {
  config_spreads : list Spread;
  config_speeds_cover : option Q;
  config_speeds_flip : option Q;
  config_initialSpreadIndex : option Q
}.

Definition truthy (t : option Texture) : bool :=
  match t with Some _ => true | None => false end.

Definition validateConfig (sps : list Spread) : option Error :=
  if (length sps =? 0)%nat
  then Some (ConfigError "spreads debe tener al menos 1 spread")
  else if negb (forallb (fun s => truthy (left s) && truthy (right s)) sps)
  then Some (ConfigError "cada spread debe tener left y right")
  else None.

(** The fields as the constructor leaves them before [setSpread]. *)
Definition initial (config : BookConfig) : Book :=
  mkBook (config_spreads config)
    (default (literal (16 # 10)) (config_speeds_cover config))
    (default (literal (12 # 10)) (config_speeds_flip config))
    (default 0 (config_initialSpreadIndex config))
    ∅ 0 0
    (mkMaterials None None None None)
    (mkVisibility true true false false)
    (mkPivot 0 []) (mkPivot 0 [])
    (mkRig 0 0 0 0)
    (mkCover true 0 false 0 0 (Math_PI / 2) (- Math_PI / 2))
    (mkFlip false 0 0 None None None None None None true)
    [].

(** [new Book(...)]: the book, or the exception that aborts construction. *)
Definition construct (config : BookConfig) : Book + Error :=
  match validateConfig (config_spreads config) with
  | Some e => inr e
  | None =>
      let s := initial config in
      match setSpread (spreadIndex s) s with
      | (s, None) => inl s
      | (_, Some e) => inr e
      end
  end.

(** ** Runs *)

Inductive Call : Type :=
  | CallToggleCover (perf_now : Q)
  | CallFlipPage (dir : Q) (perf_now : Q)
  | CallUpdate (now_cover now_flip : Q).

Definition call (c : Call) (s : Book) : Outcome :=
  match c with
  | CallToggleCover t => (toggleCover t s, None)
  | CallFlipPage dir t => flipPage dir t s
  | CallUpdate tc tf => update tc tf s
  end.

(** A caller's exception handler or the event loop absorbs the exception and
    the book lives on in the state the call left. *)
Definition run (cs : list Call) (s : Book) : Book :=
  fold_left (fun s c => fst (call c s)) cs s.

Inductive reachable (config : BookConfig) : Book -> Prop :=
  | reach_construct s :
      construct config = inl s -> reachable config s
  | reach_call s c :
      reachable config s -> reachable config (fst (call c s)).

(** ** Invariants *)

(** A turn on hinge [h] is under way: what [flipPage] sets up and [update]
    keeps until completion. *)
Record turn_ok (h : Hinge) (s : Book) : Prop := mk_turn_ok {
  turn_active : flip_active (flip s) = true;
  turn_hinge : h = hinge_of_dir (flip_dir (flip s));
  turn_hidden : flip_hidden (flip s) = Some (page_of h);
  turn_under : flip_under (flip s) = Some (under_of h);
  turn_other : flip_other (flip s) = Some (opposite_page_of h);
  turn_sheet : exists f b,
    flip_frontMesh (flip s) = Some f /\ flip_backMesh (flip s) = Some b /\
    mesh_id f <> mesh_id b /\ children (pivot h s) = [f; b];
  turn_other_hinge : children (pivot (other_hinge h) s) = [];
  turn_page_hidden : visible (page_of h) s = false;
  turn_reveal : visible (under_of h) s = true;
  turn_next : exists n sp,
    spread_at (fadd (spreadIndex s) (flip_dir (flip s))) s = Some (n, sp) /\
    map_of (underMat_of h) s = same_side h sp
}.

(** No hinge is recorded: no transient mesh exists. *)
Record no_turn (s : Book) : Prop := mk_no_turn {
  idle_front : flip_frontMesh (flip s) = None;
  idle_back : flip_backMesh (flip s) = None;
  idle_hidden : flip_hidden (flip s) = None;
  idle_pivotL : children (pivotL_node s) = [];
  idle_pivotR : children (pivotR_node s) = []
}.

Record inv (s : Book) : Prop := mk_inv {
  inv_spreads : validateConfig (spreads s) = None;
  inv_index : exists n,
    array_index (spreadIndex s) = Some n /\ (n < length (spreads s))%nat;
  inv_cache : textures_created s = size (flippedCache s);
  inv_turn : match flip_pivot (flip s) with
             | Some h => turn_ok h s
             | None => no_turn s
             end;
  inv_idle : flip_active (flip s) = false ->
             flip_pivot (flip s) = None /\
             visible leftPage s = true /\ visible rightPage s = true;
  inv_exclusive : flip_active (flip s) = true -> cover_anim (cover s) = false
}.

(** What [endFlip] makes of a turn on hinge [h]. *)
Record ended (h : Hinge) (s s' : Book) : Prop := mk_ended {
  end_index : spreadIndex s' = fadd (spreadIndex s) (flip_dir (flip s));
  end_flip :
    flip s' = mkFlip false 0 (flip_t0 (flip s)) None None None None None None true;
  end_pivotL : children (pivotL_node s') = [];
  end_pivotR : children (pivotR_node s') = [];
  end_rotation : forall g, rotation_y (pivot g s') = rotation_y (pivot g s);
  end_left : visible leftPage s' = true;
  end_right : visible rightPage s' = true;
  end_under : visible (under_of h) s' = false;
  end_under_other :
    visible (under_of (other_hinge h)) s' = visible (under_of (other_hinge h)) s;
  end_pages : exists n sp,
    spread_at (spreadIndex s') s' = Some (n, sp) /\
    map_of leftMat s' = left sp /\ map_of rightMat s' = right sp;
  end_spreads : spreads s' = spreads s;
  end_speeds_flip : speeds_flip s' = speeds_flip s;
  end_speeds_cover : speeds_cover s' = speeds_cover s;
  end_cache : flippedCache s' = flippedCache s;
  end_textures : textures_created s' = textures_created s;
  end_cover : cover s' = cover s
}.

(** What an accepted [flipPage dir] at clock reading [t] makes of [s],
    whether or not it goes on to throw. *)
Record started (dir t : Q) (s s' : Book) : Prop := mk_started {
  start_active : flip_active (flip s') = true;
  start_dir : flip_dir (flip s') = dir;
  start_t0 : flip_t0 (flip s') = fdiv t 1000;
  start_index : spreadIndex s' = spreadIndex s;
  start_spreads : spreads s' = spreads s;
  start_speeds_flip : speeds_flip s' = speeds_flip s;
  start_speeds_cover : speeds_cover s' = speeds_cover s;
  start_cover : cover s' = cover s;
  start_cache : forall k tx,
    flippedCache s !! k = Some tx -> flippedCache s' !! k = Some tx
}.

(** ** Vocabulary of the specification *)




(** A spread list that passes validation. *)
Definition complete (sp : Spread) : Prop := is_Some (left sp) /\ is_Some (right sp).

Definition valid_spreads (sps : list Spread) : Prop :=
  sps <> [] /\ Forall complete sps.

(** An [update] (its two clock readings) that finds the turn of [s] short of
    completion, and one that finds the cover animation of [s] complete: the
    completion tests [u >= 1] of [update], on the progress it computes. *)
Definition before_completion (s : Book) (u : Q * Q) : Prop :=
  js_ge (flip_u (snd u) s) 1 = false.


Definition updates (us : list (Q * Q)) : list Call :=
  map (fun u => CallUpdate (fst u) (snd u)) us.

(** ** Sample books *)

Definition page (n : nat) : Spread :=
  mkSpread (Some (Tex (2 * n))) (Some (Tex (2 * n + 1))).

Definition config3 : BookConfig := mkConfig [page 0; page 1; page 2] None None None.
Definition config_half : BookConfig :=
  mkConfig [page 0; page 1] None None (Some (1 # 2)).

Definition book_of (config : BookConfig) : Book :=
  match construct config with inl s => s | inr _ => initial config end.

Definition book3 : Book := book_of config3.

Definition config1 : BookConfig := mkConfig [page 0] None None None.
Definition book1 : Book := book_of config1.

(** The three spreads, opened at the last one. *)
Definition config3_last : BookConfig :=
  mkConfig [page 0; page 1; page 2] None None (Some 2).
Definition book3_last : Book := book_of config3_last.

(** A session: two forward turns, a rejected call with the cover closed, a
    backward turn, and calls past either end of the book. *)
Definition session : list Call :=
  [CallFlipPage 1 0; CallUpdate 600 600; CallFlipPage 1 700;
   CallUpdate 1200 1200; CallToggleCover 1300; CallFlipPage (-1) 1400;
   CallUpdate 3000 3000; CallToggleCover 3100; CallUpdate 5000 5000;
   CallFlipPage 1 5100; CallUpdate 6400 6400; CallFlipPage 1 6500;
   CallFlipPage (-5) 6600].

(** ** The host's handlers ([src/game.ts])

    The pointer and keyboard handlers of [Game] and its frame loop.  The
    ray cast is the renderer's: its outcome is an input of the handler. *)

Record Host : Type := mkHost {
  host_book : Book;
  downX : Q;
  downY : Q;
  downAt : Q
}.

Definition with_book (b : Book) (g : Host) : Host :=
  mkHost b (downX g) (downY g) (downAt g).

Definition js_gt (x y : Q) : bool := js_lt y x.

Definition onPointerDown (clientX clientY perf_now : Q) (g : Host) : Host :=
  mkHost (host_book g) clientX clientY perf_now.

(** [hit] is the name of [hits[0].object], [None] when nothing is hit;
    [perf_now] is the handler's clock reading and [flip_now] the one of the
    [flipPage] call it may make. *)
Definition onPointerUp (clientX clientY perf_now : Q) (hit : option string)
    (flip_now : Q) (g : Host) : Host * option Error :=
  if flip_active (flip (host_book g)) then (g, None)
  else
    let dx := fsub clientX (downX g) in
    let dy := fsub clientY (downY g) in
    let dist2 := fadd (fmul dx dx) (fmul dy dy) in
    let elapsed := fsub perf_now (downAt g) in
    if js_gt dist2 25 || js_gt elapsed 350 then (g, None)
    else
      match hit with
      | None => (g, None)
      | Some name =>
          let r := if String.eqb name "rightPage"
                   then flipPage 1 flip_now (host_book g)
                   else (host_book g, None) in
          match snd r with
          | Some e => (with_book (fst r) g, Some e)
          | None =>
              let r' := if String.eqb name "leftPage"
                        then flipPage (-1) flip_now (fst r)
                        else (fst r, None) in
              (with_book (fst r') g, snd r')
          end
      end.

(** The double-click handler; [hits] tells whether a cover is hit. *)
Definition toggleCoverFromPointer (hits : bool) (perf_now : Q) (g : Host) : Host :=
  if flip_active (flip (host_book g)) then g
  else if hits then with_book (toggleCover perf_now (host_book g)) g
  else g.

Definition onKeyDown (key : string) (perf_now : Q) (g : Host)
  : Host * option Error :=
  let b := if String.eqb key "c" || String.eqb key "C"
           then toggleCover perf_now (host_book g)
           else host_book g in
  if flip_active (flip b) then (with_book b g, None)
  else
    let r := if String.eqb key "ArrowRight" then flipPage 1 perf_now b
             else (b, None) in
    match snd r with
    | Some e => (with_book (fst r) g, Some e)
    | None =>
        let r' := if String.eqb key "ArrowLeft"
                  then flipPage (-1) perf_now (fst r)
                  else (fst r, None) in
        (with_book (fst r') g, snd r')
    end.

(** One turn of the frame loop: [book.update(deltaTime)]. *)
Definition animate (now_cover now_flip : Q) (g : Host) : Host * option Error :=
  let r := update now_cover now_flip (host_book g) in
  (with_book (fst r) g, snd r).

Inductive HostEvent : Type :=
  | PointerDown (clientX clientY perf_now : Q)
  | PointerUp (clientX clientY perf_now : Q) (hit : option string) (flip_now : Q)
  | DblClick (hits : bool) (perf_now : Q)
  | KeyDown (key : string) (perf_now : Q)
  | AnimationFrame (now_cover now_flip : Q).

Definition handle (e : HostEvent) (g : Host) : Host * option Error :=
  match e with
  | PointerDown x y t => (onPointerDown x y t g, None)
  | PointerUp x y t hit tf => onPointerUp x y t hit tf g
  | DblClick hits t => (toggleCoverFromPointer hits t g, None)
  | KeyDown key t => onKeyDown key t g
  | AnimationFrame tc tf => animate tc tf g
  end.

Definition play (es : list HostEvent) (g : Host) : Host :=
  fold_left (fun g e => fst (handle e g)) es g.

(** The host right after [new Book(...)]. *)
Definition host_of (b : Book) : Host := mkHost b 0 0 0.

(** ** Further invariants *)

Definition last_spread_notice (l : list Notice) : option (Q * nat) :=
  fold_left (fun acc n => match n with
                          | onSpreadChange i total => Some (i, total)
                          | onCoverToggle _ => acc
                          end) l None.

Definition last_cover_notice (l : list Notice) : option bool :=
  fold_left (fun acc n => match n with
                          | onCoverToggle o => Some o
                          | onSpreadChange _ _ => acc
                          end) l None.

(** What the scene and the notices show, in every state a book reaches. *)
Record shown (s : Book) : Prop := mk_shown {
  shown_open : flip_active (flip s) = true -> cover_open (cover s) = true;
  shown_pages : exists n sp,
    spread_at (spreadIndex s) s = Some (n, sp) /\
    map_of leftMat s = left sp /\ map_of rightMat s = right sp;
  shown_cache : forall k t,
    flippedCache s !! k = Some t ->
    exists h n sp tx serial,
      k = cacheId_of h n /\ spreads s !! n = Some sp /\
      far_side h sp = Some tx /\ t = FlipXClone serial tx /\
      (serial < textures_created s)%nat;
  shown_sheet : forall h,
    flip_pivot (flip s) = Some h ->
    exists f b n sp tx serial,
      flip_frontMesh (flip s) = Some f /\ flip_backMesh (flip s) = Some b /\
      mesh_side f = FrontSide /\ mesh_geometry f = geoTurn_of h /\
      mesh_map f = map_of (pageMat_of h) s /\
      mesh_side b = BackSide /\ mesh_geometry b = geoTurn_of h /\
      spread_at (fadd (spreadIndex s) (flip_dir (flip s))) s = Some (n, sp) /\
      far_side h sp = Some tx /\ mesh_map b = Some (FlipXClone serial tx);
  shown_unders :
    match flip_pivot (flip s) with
    | Some h => visible (under_of (other_hinge h)) s = false
    | None =>
        flip_active (flip s) = false ->
        visible underLeft s = false /\ visible underRight s = false
    end;
  shown_spread_notice :
    last_spread_notice (notices s) = Some (spreadIndex s, length (spreads s));
  shown_cover_notice :
    default true (last_cover_notice (notices s)) = cover_open (cover s)
}.

(** A call whose direction, if any, is an integer. *)
Definition integral (c : Call) : Prop :=
  match c with
  | CallFlipPage dir _ => isInteger dir = true
  | _ => True
  end.

(** A call that is not [toggleCover]. *)
Definition keeps_cover (c : Call) : Prop :=
  match c with CallToggleCover _ => False | _ => True end.

(** A turn marked active has its hinge. *)
Definition hinged_prop (s : Book) : Prop :=
  flip_active (flip s) = true -> is_Some (flip_pivot (flip s)).

(** The host holds a book in a state its handlers can have produced. *)
Definition host_ok (g : Host) : Prop :=
  inv (host_book g) /\ shown (host_book g) /\ hinged_prop (host_book g).

End Model.

(** ** Proof automation: evaluation of the field updates on explicit records *)

Ltac book_eval :=
  lazy beta iota zeta delta
    [endFlip cleanupFlipMeshes set_visible_opt set_visible set_visibility
     set_map set_materials set_pivot set_rotation pivot_remove pivot_add pivot
     visible map_of set_spreadIndex set_flippedCache set_meshes_created set_rig
     set_cover set_flip notify flip_start
     flip_begin flip_reveal flip_hide page_of opposite_page_of under_of
     underMat_of pageMat_of geoTurn_of same_side far_side other_hinge
     hide_unders_if_idle
     spreads speeds_cover speeds_flip spreadIndex flippedCache textures_created
     meshes_created materials visibility pivotL_node pivotR_node rig cover flip
     notices
     flip_active flip_dir flip_t0 flip_pivot flip_hidden flip_frontMesh
     flip_backMesh flip_under flip_other flip_otherWasVisible
     cover_open cover_t0 cover_anim leftOpenRot rightOpenRot leftClosedRot
     rightClosedRot
     leftPage_visible rightPage_visible underLeft_visible underRight_visible
     leftMat_map rightMat_map underMatL_map underMatR_map
     rotation_y children fst snd].

Ltac book_eval_in H :=
  lazy beta iota zeta delta
    [endFlip cleanupFlipMeshes set_visible_opt set_visible set_visibility
     set_map set_materials set_pivot set_rotation pivot_remove pivot_add pivot
     visible map_of set_spreadIndex set_flippedCache set_meshes_created set_rig
     set_cover set_flip notify flip_start
     flip_begin flip_reveal flip_hide page_of opposite_page_of under_of
     underMat_of pageMat_of geoTurn_of same_side far_side other_hinge
     hide_unders_if_idle
     spreads speeds_cover speeds_flip spreadIndex flippedCache textures_created
     meshes_created materials visibility pivotL_node pivotR_node rig cover flip
     notices
     flip_active flip_dir flip_t0 flip_pivot flip_hidden flip_frontMesh
     flip_backMesh flip_under flip_other flip_otherWasVisible
     cover_open cover_t0 cover_anim leftOpenRot rightOpenRot leftClosedRot
     rightClosedRot
     leftPage_visible rightPage_visible underLeft_visible underRight_visible
     leftMat_map rightMat_map underMatL_map underMatR_map
     rotation_y children fst snd] in H.

Ltac destruct_book s :=
  let fl := fresh "fl" in
  let cv := fresh "cv" in
  destruct s as [?sps ?sc ?sf ?idx ?cache ?tc ?mc ?mats ?vis [?rl ?cl] [?rr ?cr] ?rg cv fl ?nt];
  destruct fl as [?a ?d ?ft ?p ?hid ?fm ?bm ?un ?ot ?ow];
  destruct cv as [?o ?ct ?an ?lo ?ro ?lc ?rc].

(** Unrounded arithmetic: the operations are the exact ones. *)
Ltac unround :=
  cbv beta iota zeta delta [fadd fsub fmul fdiv literal round Math_pow3 unrounded] in *.

(** * Proofs *)

(** ** Numbers *)

Lemma js_lt_true x y : js_lt x y = true <-> x < y.
Proof.
  unfold js_lt. rewrite negb_true_iff, <- not_true_iff_false, Qle_bool_iff.
  split; [apply Qnot_le_lt | apply Qlt_not_le].
Qed.

Lemma js_lt_false x y : js_lt x y = false <-> y <= x.
Proof. unfold js_lt. rewrite negb_false_iff. apply Qle_bool_iff. Qed.


Lemma js_ge_false x y : js_ge x y = false <-> x < y.
Proof.
  unfold js_ge. rewrite <- not_true_iff_false, Qle_bool_iff.
  split; [apply Qnot_le_lt | apply Qlt_not_le].
Qed.




Lemma clamp_id v hi : 0 <= v -> v <= hi -> clamp v 0 hi = v.
Proof.
  intros H0 H1. unfold clamp, Math_max, Math_min.
  apply Qle_bool_iff in H1. rewrite H1.
  apply Qle_bool_iff in H0. by rewrite H0.
Qed.

Lemma isInteger_divide q :
  isInteger q = true <-> exists k : Z, Qnum q = (k * Zpos (Qden q))%Z.
Proof.
  unfold isInteger. rewrite Z.eqb_eq. split.
  - intros H. exists (Z.quot (Qnum q) (Zpos (Qden q))).
    pose proof (Z.quot_rem' (Qnum q) (Zpos (Qden q))). lia.
  - intros [k ->]. apply Z.rem_mul. lia.
Qed.

Lemma array_index_Some q n :
  array_index q = Some n <->
  Qnum q = (Z.of_nat n * Zpos (Qden q))%Z.
Proof.
  unfold array_index. split.
  - destruct (isInteger q) eqn:Hi; [| done].
    destruct (0 <=? Qnum q)%Z eqn:Hp; [| done]. simpl.
    intros [= <-]. apply isInteger_divide in Hi as [k Hk].
    apply Z.leb_le in Hp. rewrite Hk, Z.div_mul by lia.
    rewrite Z2Nat.id; [done | nia].
  - intros H.
    assert (Hi : isInteger q = true) by (apply isInteger_divide; eauto).
    assert (Hp : (0 <=? Qnum q)%Z = true) by (apply Z.leb_le; nia).
    rewrite Hi, Hp. simpl. rewrite H, Z.div_mul by lia. by rewrite Nat2Z.id.
Qed.

Lemma array_index_value q n : array_index q = Some n -> q == of_nat n.
Proof.
  intros H%array_index_Some. unfold of_nat, Qeq. simpl. lia.
Qed.

Lemma array_index_of_value q n :
  q == of_nat n -> array_index q = Some n.
Proof.
  intros H. apply array_index_Some. unfold of_nat, Qeq in H. simpl in H. lia.
Qed.

Lemma array_index_of_nat n : array_index (of_nat n) = Some n.
Proof. apply array_index_of_value. reflexivity. Qed.

Lemma isInteger_value q : isInteger q = true <-> exists z, q == inject_Z z.
Proof.
  rewrite isInteger_divide. unfold Qeq. simpl.
  split; intros [k Hk]; exists k; lia.
Qed.

Lemma isInteger_array_index q :
  isInteger q = true -> 0 <= q -> exists n, array_index q = Some n.
Proof.
  intros [z Hz]%isInteger_value H0.
  exists (Z.to_nat z). apply array_index_of_value. rewrite Hz.
  unfold of_nat. rewrite Z2Nat.id; [reflexivity |].
  rewrite Hz in H0. unfold Qle in H0. simpl in H0. lia.
Qed.

Lemma isInteger_plus a b :
  isInteger a = true -> isInteger b = true -> isInteger (a + b) = true.
Proof.
  rewrite !isInteger_value. intros [x Hx] [y Hy]. exists (x + y)%Z.
  rewrite Hx, Hy, inject_Z_plus. reflexivity.
Qed.

Lemma array_index_isInteger q n : array_index q = Some n -> isInteger q = true.
Proof.
  intros H%array_index_value. apply isInteger_value. by exists (Z.of_nat n).
Qed.

Lemma of_nat_le (a b : nat) : of_nat a <= of_nat b <-> (a <= b)%nat.
Proof. unfold of_nat. rewrite <- Zle_Qle. lia. Qed.

Lemma of_nat_lt (a b : nat) : of_nat a < of_nat b <-> (a < b)%nat.
Proof. unfold of_nat. rewrite <- Zlt_Qlt. lia. Qed.

Lemma of_nat_pred (n : nat) : (0 < n)%nat -> of_nat n - 1 == of_nat (n - 1).
Proof.
  intros H. unfold of_nat. replace (Z.of_nat (n - 1)) with (Z.of_nat n - 1)%Z by lia.
  unfold Zminus. rewrite inject_Z_plus. reflexivity.
Qed.

(** ** Doubles

    [round64] takes integers to integers and is the identity on the integers
    below [2^53]. *)

Lemma Qred_integer q z : q == inject_Z z -> Qred q = inject_Z z.
Proof.
  intros H. rewrite (Qred_complete _ _ H). unfold Qred, inject_Z.
  pose proof (Z.ggcd_correct_divisors z 1) as D.
  pose proof (Z.ggcd_gcd z 1) as G.
  destruct (Z.ggcd z 1) as [g [aa bb]]. cbn [fst snd] in *.
  rewrite Z.gcd_1_r in G. subst g. destruct D as [D1 D2].
  rewrite Z.mul_1_l in D1, D2. by subst.
Qed.

Lemma pow2_nonpos k : (k <= 0)%Z -> pow2 k = 1%Z.
Proof. intros H. unfold pow2. by rewrite Z.max_l. Qed.

Lemma pow2_nonneg k : (0 <= k)%Z -> pow2 k = (2 ^ k)%Z.
Proof. intros H. unfold pow2. by rewrite Z.max_r. Qed.

Lemma pow2_pos k : (0 < pow2 k)%Z.
Proof. unfold pow2. apply Z.pow_pos_nonneg; lia. Qed.

(** On an integer [z]: the exponent found, and the result. *)
Lemma round64_inject_Z x z :
  x == inject_Z z ->
  (exists z', round64 x == inject_Z z') /\
  ((Z.abs z < 2 ^ 53)%Z -> round64 x == inject_Z z).
Proof.
  intros Hx. unfold round64. rewrite (Qred_integer _ _ Hx).
  cbn [Qnum Qden inject_Z].
  destruct (Z.abs z =? 0)%Z eqn:E0.
  { apply Z.eqb_eq in E0. split; [by exists 0%Z |].
    intros _. assert (z = 0%Z) as -> by lia. reflexivity. }
  apply Z.eqb_neq in E0.
  assert (Hn : (0 < Z.abs z)%Z) by lia.
  change (Z.log2 1) with 0%Z. rewrite Z.sub_0_r.
  set (n := Z.abs z) in *. set (e0 := Z.log2 n).
  assert (He0 : (0 <= e0)%Z) by apply Z.log2_nonneg.
  destruct (Z.log2_spec n Hn) as [L1 L2]. fold e0 in L1, L2.
  rewrite (pow2_nonpos (- e0)) by lia. rewrite (pow2_nonneg e0) by done.
  assert (T : (n * 1 <? 1 * 2 ^ e0)%Z = false) by (apply Z.ltb_ge; lia).
  rewrite T.
  assert (Hex : Z.max (e0 - 52) (-1074) = (e0 - 52)%Z) by lia. rewrite Hex.
  destruct (Z_le_gt_dec e0 52) as [Hle | Hgt].
  - rewrite (pow2_nonneg (- (e0 - 52))) by lia.
    rewrite (pow2_nonpos (e0 - 52)) by lia.
    set (P := (2 ^ (- (e0 - 52)))%Z).
    assert (HP : (0 < P)%Z) by (apply Z.pow_pos_nonneg; lia).
    rewrite Z.mul_1_l, Z.div_1_r, Z.mod_1_r. cbn [Z.mul Z.ltb Z.compare].
    assert (R : Qred (Z.sgn z * (n * P) * 1 # Z.to_pos P) == inject_Z z).
    { rewrite Qred_correct. unfold Qeq. cbn [Qnum Qden inject_Z].
      rewrite Z2Pos.id by done. subst n.
      generalize P. clear. intros P. destruct z; cbn [Z.sgn Z.abs]; lia. }
    split; [by exists z | by intros _].
  - rewrite (pow2_nonpos (- (e0 - 52))) by lia.
    split.
    + eexists. rewrite Qred_correct. change (Z.to_pos 1) with 1%positive.
      reflexivity.
    + intros Hlt. exfalso.
      assert (e0 < 53)%Z; [| lia].
      apply Z.log2_lt_pow2; done.
Qed.

Lemma round64_integer q : isInteger q = true -> isInteger (round64 q) = true.
Proof.
  intros [z Hz]%isInteger_value. apply isInteger_value.
  by destruct (round64_inject_Z q z Hz) as [H _].
Qed.

Lemma round64_small_integer q :
  isInteger q = true -> - (2 ^ 53) < q -> q < 2 ^ 53 -> round64 q == q.
Proof.
  intros [z Hz]%isInteger_value H0 H1.
  destruct (round64_inject_Z q z Hz) as [_ H]. rewrite H; [by symmetry |].
  rewrite Hz in H0, H1.
  change (2 ^ 53) with (inject_Z (2 ^ 53)) in H0, H1.
  rewrite <- inject_Z_opp in H0.
  rewrite <- Zlt_Qlt in H0, H1. lia.
Qed.

(** Double arithmetic, with [Math.pow] correctly rounded. *)
Definition binary64 : Arith :=
  mkArith round64 (fun x => round64 (x ^ 3)) round64_integer round64_small_integer.

(** ** Spreads *)

Lemma validateConfig_None sps :
  validateConfig sps = None <->
  (0 < length sps)%nat /\
  forall n sp, sps !! n = Some sp -> is_Some (left sp) /\ is_Some (right sp).
Proof.
  unfold validateConfig. destruct (Nat.eqb_spec (length sps) 0) as [E|E].
  - split; [done | lia].
  - destruct (forallb _ sps) eqn:F; simpl.
    + split; [| done]. intros _. split; [lia |]. intros n sp Hn.
      rewrite forallb_forall in F. apply list_elem_of_lookup_2, list_elem_of_In in Hn.
      specialize (F _ Hn). apply andb_true_iff in F as [F1 F2].
      destruct (left sp), (right sp); try done.
    + split; [done |]. intros [_ H]. apply not_true_iff_false in F. destruct F.
      apply forallb_forall. intros sp Hin%list_elem_of_In%list_elem_of_lookup_1.
      destruct Hin as [n Hn]. destruct (H _ _ Hn) as [[? ->] [? ->]]. done.
Qed.

Lemma spread_at_Some i s n sp :
  spread_at i s = Some (n, sp) <->
  array_index i = Some n /\ spreads s !! n = Some sp.
Proof.
  unfold spread_at. destruct (array_index i) as [m|].
  - destruct (spreads s !! m) eqn:E; split.
    + by intros [= <- <-].
    + intros [[= <-] H]. congruence.
    + done.
    + intros [[= <-] H]. congruence.
  - split; [done | by intros [? _]].
Qed.

Lemma index_bounds q n (len : nat) :
  array_index q = Some n -> (n < len)%nat -> 0 <= q /\ q <= of_nat len - 1.
Proof.
  intros Hq%array_index_value Hn. rewrite Hq. split.
  - change 0 with (of_nat 0). apply of_nat_le. lia.
  - rewrite of_nat_pred by lia. apply of_nat_le. lia.
Qed.

Lemma setSpread_ok i s n :
  array_index i = Some n -> (n < length (spreads s))%nat ->
  exists sp, spreads s !! n = Some sp /\
  setSpread i s =
    (notify (onSpreadChange i (length (spreads s)))
       (set_map rightMat (right sp) (set_map leftMat (left sp) (set_spreadIndex i s))),
     None).
Proof.
  intros Hi Hn. destruct (lookup_lt_is_Some_2 _ _ Hn) as [sp Hsp]. exists sp.
  split; [done |]. unfold setSpread.
  destruct (index_bounds _ _ _ Hi Hn) as [H0 H1].
  rewrite clamp_id by done. cbn.
  unfold spread_at. cbn. rewrite Hi, Hsp. done.
Qed.

Section Arithmetic.

Context {arith : Arith}.

(** ** [flipPage] *)

Lemma flip_accepts_true dir s :
  flip_accepts dir s = true <->
  cover_open (cover s) = true /\ cover_anim (cover s) = false /\
  flip_active (flip s) = false /\
  0 <= fadd (spreadIndex s) dir /\ fadd (spreadIndex s) dir < of_nat (length (spreads s)).
Proof.
  unfold flip_accepts.
  rewrite !andb_true_iff, !negb_true_iff, !orb_false_iff, negb_false_iff.
  rewrite js_lt_false, js_ge_false. tauto.
Qed.

Lemma flipPage_rejected dir t s :
  flip_accepts dir s = false -> flipPage dir t s = (s, None).
Proof.
  unfold flip_accepts, flipPage.
  destruct (negb (cover_open (cover s)) || cover_anim (cover s)); [done |].
  destruct (flip_active (flip s)); [done |].
  destruct (js_lt _ 0 || js_ge _ _); [done |]. done.
Qed.

Lemma flipPage_accepted_eq dir t s :
  flip_accepts dir s = true ->
  flipPage dir t s =
    flip_branch (hinge_of_dir dir) (fadd (spreadIndex s) dir) (flip_start dir t s).
Proof.
  unfold flip_accepts, flipPage, hinge_of_dir.
  destruct (negb (cover_open (cover s)) || cover_anim (cover s)); [done |].
  destruct (flip_active (flip s)); [done |].
  destruct (js_lt _ 0 || js_ge _ _); [done |]. intros _.
  by destruct (strict_eq dir 1).
Qed.

Lemma flip_branch_eq h i s :
  flip_branch h i s =
    match spread_at i s with
    | Some (n, sp) =>
        flip_sheet h n sp (flip_hide h (flip_reveal h sp (flip_begin h s)))
    | None => (flip_begin h s, Some TypeError)
    end.
Proof. reflexivity. Qed.

Lemma flipPage_accepted dir t s :
  inv s -> flip_accepts dir s = true ->
  let s' := fst (flipPage dir t s) in
  started dir t s s' /\ inv s' /\
  flip_otherWasVisible (flip s') = visible (opposite_page_of (hinge_of_dir dir)) s /\
  match spread_at (fadd (spreadIndex s) dir) s with
  | Some _ =>
      snd (flipPage dir t s) = None /\
      flip_pivot (flip s') = Some (hinge_of_dir dir)
  | None =>
      snd (flipPage dir t s) = Some TypeError /\ flip_pivot (flip s') = None
  end.
Proof.
  intros I G. rewrite (flipPage_accepted_eq _ _ _ G), flip_branch_eq.
  change (spread_at (fadd (spreadIndex s) dir) (flip_start dir t s))
    with (spread_at (fadd (spreadIndex s) dir) s).
  apply flip_accepts_true in G as (Gopen & Ganim & Gact & G0 & G1).
  destruct I as [Isp [n0 [Iidx Ilt]] Icache Iturn Iidle _].
  destruct (Iidle Gact) as (Hp & HvL & HvR). rewrite Hp in Iturn.
  destruct Iturn as [If Ib Ih IL IR].
  remember (hinge_of_dir dir) as h eqn:Hh.
  destruct (spread_at (fadd (spreadIndex s) dir) s) as [[n sp]|] eqn:Hat.
  - apply spread_at_Some in Hat as [Hn Hsp].
    apply validateConfig_None in Isp as Hv. destruct Hv as [_ Hv].
    destruct (Hv _ _ Hsp) as [Hl Hr].
    assert (Hfar : is_Some (far_side h sp)) by (by destruct h).
    destruct Hfar as [tx Htx].
    unfold flip_sheet, getFlippedTex. rewrite Htx.
    match goal with |- context [flippedCache ?s' !! ?k] =>
      change (flippedCache s') with (flippedCache s) end.
    destruct (flippedCache s !! cacheId_of h n) as [bt|] eqn:Hc.
    + split_and!; [split; cbn; try done | split; cbn; try done | | done | done].
      * eauto.
      * clear Hc. destruct h; (split; cbn; try done;
          [ eexists _, _; split_and!; [done | done | cbn; lia | by rewrite ?IL, ?IR]
          | exists n, sp; split; [by apply spread_at_Some | done] ]).
      * by destruct h.
    + split_and!; [split; cbn; try done | split; cbn; try done | | done | done].
      * intros k tx' Hk. rewrite lookup_insert_ne; [done | congruence].
      * eauto.
      * rewrite map_size_insert_None by done. by f_equal.
      * clear Hc. destruct h; (split; cbn; try done;
          [ eexists _, _; split_and!; [done | done | cbn; lia | by rewrite ?IL, ?IR]
          | exists n, sp; split; [by apply spread_at_Some | done] ]).
      * by destruct h.
  - split_and!; [split; cbn; try done | split; cbn; try done | | done | done].
    + eauto.
    + by rewrite Hp.
    + by destruct h.
Qed.

Lemma flipPage_inv dir t s : inv s -> inv (fst (flipPage dir t s)).
Proof.
  intros I. destruct (flip_accepts dir s) eqn:G.
  - by apply flipPage_accepted.
  - by rewrite flipPage_rejected.
Qed.

(** ** [endFlip] and [update] *)

Lemma remove_child_pair f b :
  mesh_id f <> mesh_id b ->
  remove_child (mesh_id b) (remove_child (mesh_id f) [f; b]) = [].
Proof.
  intros H. cbn. rewrite Nat.eqb_refl. cbn. by rewrite Nat.eqb_refl.
Qed.

Lemma endFlip_turn h s :
  flip_pivot (flip s) = Some h -> turn_ok h s ->
  exists s', endFlip s = (s', None) /\ ended h s s'.
Proof.
  intros Hp [Ha Hh Hhid Hu Ho (f & b & Hf & Hb & Hne & Hch) Hoh Hph Hrev
             (n & sp & Hat & Hmap)].
  apply spread_at_Some in Hat as Hat'. destruct Hat' as [Hi Hsp].
  assert (Hn : (n < length (spreads s))%nat) by (by eapply lookup_lt_Some).
  assert (Hrm : remove_child (mesh_id b) (remove_child (mesh_id f) [f; b]) = [])
    by (by apply remove_child_pair).
  destruct_book s.
  book_eval_in Hp; book_eval_in Ha; book_eval_in Hhid; book_eval_in Hu;
  book_eval_in Ho; book_eval_in Hf; book_eval_in Hb; book_eval_in Hn;
  book_eval_in Hsp; book_eval_in Hi. subst.
  destruct h; book_eval_in Hch; book_eval_in Hoh; subst; book_eval;
    (match goal with |- context [setSpread ?i ?s0] =>
       destruct (setSpread_ok i s0 n Hi Hn) as (sp' & Hsp' & ->) end);
    book_eval_in Hsp'; assert (sp' = sp) as -> by congruence;
    (eexists; split; [reflexivity |]);
    split; book_eval; rewrite ?Hrm; try done.
  all: try (by intros []).
  all: try (exists n, sp; split; [| done]; apply spread_at_Some; by split).
Qed.

Lemma update_flip_turning h t s :
  flip_active (flip s) = true -> flip_pivot (flip s) = Some h ->
  update_flip t s =
    if js_ge (flip_u t s) 1 then endFlip (advance h t s)
    else (advance h t s, None).
Proof. intros Ha Hp. unfold update_flip. by rewrite Ha, Hp. Qed.

Lemma update_flip_not_turning t s :
  flip_active (flip s) = false \/ flip_pivot (flip s) = None ->
  update_flip t s = (s, None).
Proof.
  unfold update_flip. intros [-> | ->]; [done |].
  by destruct (flip_active (flip s)).
Qed.

Lemma advance_turn_ok h t s : turn_ok h s -> turn_ok h (advance h t s).
Proof.
  intros [Ha Hh Hhid Hu Ho Hs Hoh Hph Hrev Hnx].
  unfold advance. rewrite Ho.
  destruct h; split; cbn; try done.
Qed.

Lemma advance_frame h t s :
  turn_ok h s ->
  let s' := advance h t s in
  spreads s' = spreads s /\ spreadIndex s' = spreadIndex s /\
  flippedCache s' = flippedCache s /\ textures_created s' = textures_created s /\
  cover s' = cover s /\ flip s' = flip s /\
  visible underLeft s' = visible underLeft s /\
  visible underRight s' = visible underRight s /\
  materials s' = materials s /\
  speeds_flip s' = speeds_flip s /\ speeds_cover s' = speeds_cover s.
Proof.
  intros [Ha Hh Hhid Hu Ho Hs Hoh Hph Hrev Hnx].
  unfold advance. rewrite Ho. destruct h; cbn; done.
Qed.

(** The hinge angle and the opposite page after the per-frame statements. *)
Lemma advance_effect h t s :
  turn_ok h s ->
  let k := easeInOut (flip_u t s) in
  let s' := advance h t s in
  rotation_y (pivot h s') =
    fmul (if strict_eq (flip_dir (flip s)) 1 then - Math_PI else Math_PI) k /\
  visible (opposite_page_of h) s' =
    (if js_le k (literal (55 # 100)) then flip_otherWasVisible (flip s) else false).
Proof.
  intros [Ha Hh Hhid Hu Ho Hs Hoh Hph Hrev Hnx].
  unfold advance. rewrite Ho. destruct h; split; reflexivity.
Qed.

Lemma ended_inv h s s' : inv s -> ended h s s' -> inv s'.
Proof.
  intros [I1 I2 I3 I4 I5 I6]
         [E1 E2 E3 E4 E5 E6 E7 E8 E9 E10 E11 E12 E13 E14 E15 E16].
  split.
  - congruence.
  - destruct E10 as (n & sp & [Hi Hsp]%spread_at_Some & _).
    exists n. split; [done |]. by eapply lookup_lt_Some.
  - congruence.
  - rewrite E2. split; try done; by rewrite E2.
  - intros _. by rewrite E2.
  - by rewrite E2.
Qed.

Lemma advance_inv h t s :
  inv s -> flip_pivot (flip s) = Some h -> inv (advance h t s).
Proof.
  intros I Hp.
  pose proof (inv_turn _ I) as T. rewrite Hp in T.
  pose proof (advance_turn_ok h t s T) as T'.
  destruct (advance_frame h t s T)
    as (F1 & F2 & F3 & F4 & F5 & F6 & F7 & F8 & F9 & F10 & F11).
  destruct I. split.
  - by rewrite F1.
  - by rewrite F1, F2.
  - by rewrite F3, F4.
  - by rewrite F6, Hp.
  - rewrite F6. destruct T. congruence.
  - by rewrite F5, F6.
Qed.

Lemma update_flip_inv t s : inv s -> inv (fst (update_flip t s)).
Proof.
  intros I.
  destruct (flip_active (flip s)) eqn:Ha;
    [| by rewrite update_flip_not_turning by auto].
  destruct (flip_pivot (flip s)) as [h|] eqn:Hp;
    [| by rewrite update_flip_not_turning by auto].
  rewrite (update_flip_turning h) by done.
  pose proof (inv_turn _ I) as T. rewrite Hp in T.
  pose proof (advance_turn_ok h t s T) as T'.
  pose proof (advance_inv h t s I Hp) as I'.
  destruct (advance_frame h t s T) as (_ & _ & _ & _ & _ & F6 & _).
  destruct (js_ge _ 1); [| done].
  destruct (endFlip_turn h (advance h t s)) as (s' & -> & E);
    [by rewrite F6 | done |].
  by eapply ended_inv.
Qed.

Lemma update_cover_frame t s :
  let s' := update_cover t s in
  spreads s' = spreads s /\ spreadIndex s' = spreadIndex s /\
  flippedCache s' = flippedCache s /\ textures_created s' = textures_created s /\
  flip s' = flip s /\ materials s' = materials s /\
  pivotL_node s' = pivotL_node s /\ pivotR_node s' = pivotR_node s /\
  visible leftPage s' = visible leftPage s /\
  visible rightPage s' = visible rightPage s /\
  cover_open (cover s') = cover_open (cover s) /\
  (cover_anim (cover s) = false -> cover s' = cover s) /\
  (flip_active (flip s) = true -> visibility s' = visibility s) /\
  speeds_flip s' = speeds_flip s /\ speeds_cover s' = speeds_cover s /\
  cover_t0 (cover s') = cover_t0 (cover s).
Proof.
  destruct_book s.
  unfold update_cover, hide_unders_if_idle. book_eval.
  destruct an; [destruct (js_ge _ 1) |]; destruct a; book_eval;
    split_and!; done.
Qed.

Lemma update_cover_hides t s :
  flip_active (flip s) = false ->
  visible underLeft (update_cover t s) = false /\
  visible underRight (update_cover t s) = false.
Proof.
  destruct_book s. book_eval. intros ->.
  unfold update_cover, hide_unders_if_idle. book_eval.
  destruct an; [destruct (js_ge _ 1) |]; book_eval; by split.
Qed.

Lemma update_cover_inv t s : inv s -> inv (update_cover t s).
Proof.
  intros I.
  destruct (update_cover_frame t s)
    as (F1 & F2 & F3 & F4 & F5 & F6 & F7 & F8 & F9 & F10 & F11 & F12 & F13 & _).
  destruct I as [I1 I2 I3 I4 I5 I6]. split.
  - by rewrite F1.
  - by rewrite F1, F2.
  - by rewrite F3, F4.
  - rewrite F5. destruct (flip_pivot (flip s)) as [h|].
    + destruct I4 as [Ha Hh Hhid Hu Ho Hs Hoh Hph Hrev Hnx].
      specialize (F13 Ha).
      split; rewrite ?F5; try done.
      * destruct h; cbn in *; by rewrite ?F7, ?F8.
      * destruct h; cbn in *; by rewrite ?F7, ?F8.
      * destruct h; cbn in *; by rewrite F13.
      * destruct h; cbn in *; by rewrite F13.
      * destruct Hnx as (n & sp & H1 & H2). exists n, sp.
        split; [| by destruct h; cbn in *; rewrite F6].
        rewrite F2. apply spread_at_Some. rewrite F1. by apply spread_at_Some.
    + destruct I4. split; by rewrite ?F5, ?F7, ?F8.
  - rewrite F5, F9, F10. done.
  - rewrite F5. intros Ha. rewrite F12; auto.
Qed.

Lemma update_inv tc tf s : inv s -> inv (fst (update tc tf s)).
Proof. intros I. apply update_flip_inv. by apply update_cover_inv. Qed.

Lemma toggleCover_inv t s : inv s -> inv (toggleCover t s).
Proof.
  intros I. unfold toggleCover.
  destruct (flip_active (flip s)) eqn:Ha; [done |].
  destruct (cover_anim (cover s)) eqn:Hc; [done |]. cbn.
  destruct I as [I1 I2 I3 I4 I5 I6]. split; cbn; try done.
  - destruct (flip_pivot (flip s)) as [h|].
    + by destruct I4.
    + by destruct I4.
  - congruence.
Qed.

Lemma construct_inv config s : construct config = inl s -> inv s.
Proof.
  unfold construct. destruct (validateConfig _) eqn:V; [done |].
  unfold setSpread.
  destruct (spread_at _ _) as [[n sp]|] eqn:Hat; [| done].
  intros [= <-]. apply spread_at_Some in Hat as [Hi Hsp]. cbn in Hi, Hsp.
  split; cbn; try done.
  exists n. split; [done |]. by eapply lookup_lt_Some.
Qed.

Lemma call_inv c s : inv s -> inv (fst (call c s)).
Proof.
  destruct c; cbn [call fst].
  - apply toggleCover_inv.
  - apply flipPage_inv.
  - apply update_inv.
Qed.

Lemma run_app cs cs' s : run (cs ++ cs') s = run cs' (run cs s).
Proof. apply fold_left_app. Qed.

Lemma run_inv cs s : inv s -> inv (run cs s).
Proof.
  revert s. induction cs as [|c cs IH]; intros s I; [done |].
  apply IH. by apply call_inv.
Qed.

Lemma reachable_inv config s : reachable config s -> inv s.
Proof.
  induction 1 as [s H | s c _ IH].
  - by eapply construct_inv.
  - by apply call_inv.
Qed.

Lemma reachable_run config s cs : reachable config s -> reachable config (run cs s).
Proof.
  revert s. induction cs as [|c cs IH]; intros s R; [done |].
  apply IH. by constructor.
Qed.

(** ** Progress of a turn *)

Lemma flip_u_update_cover tc tf s :
  flip_u tf (update_cover tc s) = flip_u tf s.
Proof.
  destruct (update_cover_frame tc s)
    as (_ & _ & _ & _ & F5 & _ & _ & _ & _ & _ & _ & _ & _ & F14 & _).
  unfold flip_u. by rewrite F5, F14.
Qed.

(** [update] on a turn that has not reached its duration. *)
Lemma update_turn_progress h tc tf s :
  inv s -> flip_active (flip s) = true -> flip_pivot (flip s) = Some h ->
  js_ge (flip_u tf s) 1 = false ->
  let s' := fst (update tc tf s) in
  snd (update tc tf s) = None /\
  flip s' = flip s /\ spreadIndex s' = spreadIndex s /\
  spreads s' = spreads s /\ speeds_flip s' = speeds_flip s /\
  speeds_cover s' = speeds_cover s /\
  flippedCache s' = flippedCache s /\
  rotation_y (pivot h s') =
    fmul (if strict_eq (flip_dir (flip s)) 1 then - Math_PI else Math_PI)
      (easeInOut (flip_u tf s)) /\
  visible (opposite_page_of h) s' =
    (if js_le (easeInOut (flip_u tf s)) (literal (55 # 100))
     then flip_otherWasVisible (flip s) else false) /\
  visible (under_of h) s' = true.
Proof.
  intros I Ha Hp Hu.
  pose proof (update_cover_inv tc s I) as I1.
  destruct (update_cover_frame tc s)
    as (F1 & F2 & F3 & F4 & F5 & F6 & F7 & F8 & F9 & F10 & F11 & F12 & F13
        & F14 & F15 & F16).
  pose proof (inv_turn _ I1) as T. rewrite F5, Hp in T.
  destruct (advance_frame h tf _ T)
    as (A1 & A2 & A3 & A4 & A5 & A6 & A7 & A8 & A9 & A10 & A11).
  destruct (advance_effect h tf _ T) as (B1 & B2).
  pose proof (turn_reveal _ _ (advance_turn_ok h tf _ T)) as R.
  unfold update. rewrite (update_flip_turning h) by (by rewrite F5).
  rewrite flip_u_update_cover in *. rewrite Hu. cbn [fst snd].
  rewrite F5 in B1, B2.
  split_and!; try done; congruence.
Qed.

(** [update] on a turn that has reached its duration. *)
Lemma update_turn_complete h tc tf s :
  inv s -> flip_active (flip s) = true -> flip_pivot (flip s) = Some h ->
  js_ge (flip_u tf s) 1 = true ->
  exists s', update tc tf s = (s', None) /\
  ended h (advance h tf (update_cover tc s)) s' /\
  spreadIndex s' = fadd (spreadIndex s) (flip_dir (flip s)) /\
  spreads s' = spreads s /\ speeds_flip s' = speeds_flip s /\
  speeds_cover s' = speeds_cover s /\
  flippedCache s' = flippedCache s /\
  rotation_y (pivot h s') =
    fmul (if strict_eq (flip_dir (flip s)) 1 then - Math_PI else Math_PI)
      (easeInOut (flip_u tf s)).
Proof.
  intros I Ha Hp Hu.
  pose proof (update_cover_inv tc s I) as I1.
  destruct (update_cover_frame tc s)
    as (F1 & F2 & F3 & F4 & F5 & F6 & F7 & F8 & F9 & F10 & F11 & F12 & F13
        & F14 & F15 & F16).
  pose proof (inv_turn _ I1) as T. rewrite F5, Hp in T.
  destruct (advance_frame h tf _ T)
    as (A1 & A2 & A3 & A4 & A5 & A6 & A7 & A8 & A9 & A10 & A11).
  destruct (advance_effect h tf _ T) as (B1 & B2).
  destruct (endFlip_turn h (advance h tf (update_cover tc s))) as (s' & Hs' & E);
    [by rewrite A6, F5 | by apply advance_turn_ok |].
  exists s'. unfold update. rewrite (update_flip_turning h) by (by rewrite F5).
  rewrite flip_u_update_cover in *. rewrite Hu.
  rewrite F5 in B1.
  destruct E. split_and!; try done; congruence.
Qed.

(** What any call preserves. *)
Lemma call_frame c s :
  inv s ->
  let s' := fst (call c s) in
  spreads s' = spreads s /\ speeds_flip s' = speeds_flip s /\
  speeds_cover s' = speeds_cover s /\
  forall k tx, flippedCache s !! k = Some tx -> flippedCache s' !! k = Some tx.
Proof.
  intros I. destruct c as [t | dir t | tc tf]; cbn [call fst].
  - unfold toggleCover.
    by destruct (flip_active (flip s) || cover_anim (cover s)).
  - destruct (flip_accepts dir s) eqn:G.
    + destruct (flipPage_accepted dir t s I G) as ([] & _). done.
    + by rewrite flipPage_rejected.
  - destruct (flip_active (flip s)) eqn:Ha; [destruct (flip_pivot (flip s)) as [h|] eqn:Hp |].
    + destruct (js_ge (flip_u tf s) 1) eqn:Hu.
      * destruct (update_turn_complete h tc tf s I Ha Hp Hu)
          as (s' & -> & _ & _ & E1 & E2 & E3 & E4 & _).
        cbn [fst]. split_and!; try done. intros k tx. by rewrite E4.
      * destruct (update_turn_progress h tc tf s I Ha Hp Hu)
          as (_ & _ & _ & E1 & E2 & E3 & E4 & _).
        split_and!; try done. intros k tx. by rewrite E4.
    + destruct (update_cover_frame tc s)
        as (F1 & F2 & F3 & F4 & F5 & _ & _ & _ & _ & _ & _ & _ & _ & F14 & F15 & _).
      unfold update. rewrite update_flip_not_turning by (right; by rewrite F5).
      cbn [fst]. split_and!; try done. intros k tx. by rewrite F3.
    + destruct (update_cover_frame tc s)
        as (F1 & F2 & F3 & F4 & F5 & _ & _ & _ & _ & _ & _ & _ & _ & F14 & F15 & _).
      unfold update. rewrite update_flip_not_turning by (left; by rewrite F5).
      cbn [fst]. split_and!; try done. intros k tx. by rewrite F3.
Qed.

Lemma run_frame cs s :
  inv s ->
  let s' := run cs s in
  spreads s' = spreads s /\ speeds_flip s' = speeds_flip s /\
  speeds_cover s' = speeds_cover s /\
  forall k tx, flippedCache s !! k = Some tx -> flippedCache s' !! k = Some tx.
Proof.
  revert s. induction cs as [|c cs IH]; intros s I; [done |].
  destruct (call_frame c s I) as (C1 & C2 & C3 & C4).
  destruct (IH _ (call_inv c s I)) as (R1 & R2 & R3 & R4).
  change (run (c :: cs) s) with (run cs (fst (call c s))).
  cbv zeta in *. split_and!; [congruence | congruence | congruence |].
  intros k tx Hk. by apply R4, C4.
Qed.

Lemma construct_spreads config s :
  construct config = inl s -> spreads s = config_spreads config.
Proof.
  unfold construct. destruct (validateConfig _); [done |].
  unfold setSpread. destruct (spread_at _ _) as [[n sp]|]; [| done].
  by intros [= <-].
Qed.

(** * Properties of the specification *)

(** ** Construction *)

Lemma Forall_complete sps :
  Forall complete sps <->
  forall n sp, sps !! n = Some sp -> is_Some (left sp) /\ is_Some (right sp).
Proof. apply Forall_lookup. Qed.

Lemma validateConfig_cases sps :
  match validateConfig sps with
  | None => valid_spreads sps
  | Some e =>
      (sps = [] /\ e = ConfigError "spreads debe tener al menos 1 spread") \/
      (sps <> [] /\ ~ Forall complete sps /\
       e = ConfigError "cada spread debe tener left y right")
  end.
Proof.
  destruct (validateConfig sps) as [e|] eqn:V.
  - unfold validateConfig in V. destruct sps as [|sp sps]; [left; by inversion V |].
    right. cbn [length Nat.eqb] in V.
    destruct (negb _) eqn:F in V; [| done]. inversion V. split_and!; try done.
    intros HF. pose proof (proj1 (Forall_complete _) HF) as HF'.
    assert (validateConfig (sp :: sps) = None) as V'.
    { apply validateConfig_None. split; [cbn; lia | done]. }
    unfold validateConfig in V'. cbn [length Nat.eqb] in V'. by rewrite F in V'.
  - apply validateConfig_None in V as [Hlen H]. split.
    + intros ->. cbn in Hlen. lia.
    + by apply Forall_complete.
Qed.

Lemma isInteger_clamp i (len : nat) :
  (0 < len)%nat -> isInteger i = true ->
  isInteger (clamp i 0 (of_nat len - 1)) = true.
Proof.
  intros Hlen Hi.
  assert (H1 : isInteger (of_nat len - 1) = true).
  { apply isInteger_value. exists (Z.of_nat (len - 1)). by apply of_nat_pred. }
  unfold clamp, Math_max, Math_min.
  destruct (Qle_bool i _); destruct (Qle_bool 0 _); done.
Qed.

Lemma clamp_bounds i hi : 0 <= hi -> 0 <= clamp i 0 hi /\ clamp i 0 hi <= hi.
Proof.
  intros Hhi. unfold clamp, Math_max, Math_min.
  destruct (Qle_bool i hi) eqn:E1.
  - destruct (Qle_bool 0 i) eqn:E2.
    + split; by apply Qle_bool_iff.
    + split; [apply Qle_refl | done].
  - destruct (Qle_bool 0 hi) eqn:E2.
    + split; [done | apply Qle_refl].
    + split; [apply Qle_refl | done].
Qed.

Lemma construct_cases config :
  let sps := config_spreads config in
  let i := clamp (default 0 (config_initialSpreadIndex config)) 0
                 (of_nat (length sps) - 1) in
  valid_spreads sps ->
  if isInteger i then exists s, construct config = inl s
  else construct config = inr TypeError.
Proof.
  intros sps i V. unfold construct.
  pose proof (validateConfig_cases sps) as Hv. fold sps.
  destruct (validateConfig sps) as [e|].
  { destruct V as [V1 V2]. destruct Hv as [[? _] | (_ & ? & _)]; done. }
  unfold setSpread. cbn [spreadIndex set_spreadIndex initial spreads].
  fold sps. fold i.
  assert (Hlen : (0 < length sps)%nat).
  { destruct V as [V1 _]. destruct sps; [done | cbn; lia]. }
  assert (Hhi : 0 <= of_nat (length sps) - 1).
  { rewrite of_nat_pred by done. change 0 with (of_nat 0). apply of_nat_le. lia. }
  destruct (clamp_bounds (default 0 (config_initialSpreadIndex config)) _ Hhi)
    as [B0 B1]. fold i in B0, B1.
  unfold spread_at. cbn [spreads set_spreadIndex].
  destruct (isInteger i) eqn:Hi.
  - destruct (isInteger_array_index i Hi B0) as [n Hn]. rewrite Hn.
    assert (Hlt : (n < length sps)%nat).
    { apply array_index_value in Hn. rewrite Hn, of_nat_pred in B1 by done.
      apply of_nat_le in B1. lia. }
    destruct (lookup_lt_is_Some_2 sps n Hlt) as [sp Hsp].
    change (spreads (initial config)) with sps. rewrite Hsp. eauto.
  - destruct (array_index i) as [n|] eqn:Hn; [| done].
    apply array_index_isInteger in Hn. congruence.
Qed.

(** C7, amended.  An empty spread list, or a spread without its left or right
    texture, makes the constructor throw its configuration error.  With a
    non-empty list of complete spreads the constructor returns a book exactly
    when the initial spread index, clamped into [[0, count - 1]], is an
    integer, as it is for the default 0 and for every integer index. *)
Theorem construct_validation config :
  let sps := config_spreads config in
  let i0 := default 0 (config_initialSpreadIndex config) in
  (sps = [] ->
   construct config = inr (ConfigError "spreads debe tener al menos 1 spread")) /\
  (sps <> [] -> ~ Forall complete sps ->
   construct config = inr (ConfigError "cada spread debe tener left y right")) /\
  (valid_spreads sps ->
   ((exists s, construct config = inl s) <->
    isInteger (clamp i0 0 (of_nat (length sps) - 1)) = true) /\
   (isInteger i0 = true -> exists s, construct config = inl s)).
Proof.
  intros sps i0. split_and!.
  - intros E. unfold construct. fold sps. by rewrite E.
  - intros Hne Hnot. unfold construct. fold sps.
    pose proof (validateConfig_cases sps) as Hv.
    destruct (validateConfig sps) as [e|].
    + destruct Hv as [[? _] | (_ & _ & ->)]; done.
    + by destruct Hv as [_ Hv].
  - intros V. pose proof (construct_cases config V) as C. cbv zeta in C.
    fold sps in C. fold i0 in C.
    assert (Hlen : (0 < length sps)%nat).
    { destruct V as [V1 _]. destruct sps; [done | cbn; lia]. }
    split.
    + destruct (isInteger (clamp i0 0 _)).
      * by split.
      * rewrite C. split; [by intros [s Hs] | done].
    + intros Hi. rewrite (isInteger_clamp i0 _ Hlen Hi) in C. done.
Qed.

(** ** The cover animation *)

Lemma update_idle tc tf s :
  flip_active (flip s) = false -> update tc tf s = (update_cover tc s, None).
Proof.
  intros Ha. unfold update. apply update_flip_not_turning. left.
  destruct (update_cover_frame tc s) as (_ & _ & _ & _ & F5 & _).
  by rewrite F5.
Qed.





(** ** Exact arithmetic: the progress and the easing curve *)



(** ** The cache and the turn under [update] *)

Lemma getFlippedTex_inv tex k s : inv s -> inv (fst (getFlippedTex tex k s)).
Proof.
  intros I. unfold getFlippedTex.
  destruct (flippedCache s !! k) eqn:Hk; [done |].
  destruct tex as [tx|]; [| done]. cbn [fst].
  destruct I as [I1 I2 I3 I4 I5 I6]. split; try done.
  - cbn. rewrite map_size_insert_None by done. by f_equal.
  - change (flip (set_flippedCache _ _ s)) with (flip s).
    destruct (flip_pivot (flip s)).
    + destruct I4. by split.
    + destruct I4. by split.
Qed.

Lemma flip_u_same t s s' :
  flip s' = flip s -> speeds_flip s' = speeds_flip s -> flip_u t s' = flip_u t s.
Proof. intros E1 E2. unfold flip_u. by rewrite E1, E2. Qed.

(** [update] calls on an active turn, none of which finds it complete: the
    turn stays as it is. *)
Lemma updates_before_completion_from (us : list (Q * Q)) x y :
  inv y -> flip y = flip x -> speeds_flip y = speeds_flip x ->
  spreadIndex y = spreadIndex x -> flip_active (flip x) = true ->
  Forall (before_completion x) us ->
  let y' := run (updates us) y in
  inv y' /\ flip y' = flip x /\ speeds_flip y' = speeds_flip x /\
  spreadIndex y' = spreadIndex x.
Proof.
  intros I F1 F2 F3 Ha Hus. revert y I F1 F2 F3.
  induction Hus as [| [tc tf] us Hu Hus IH]; intros y I F1 F2 F3; [done |].
  change (run (updates ((tc, tf) :: us)) y)
    with (run (updates us) (fst (update tc tf y))).
  unfold before_completion in Hu. cbn [snd] in Hu.
  rewrite <- (flip_u_same _ x y) in Hu by done.
  assert (Hay : flip_active (flip y) = true) by (by rewrite F1).
  assert (Y : flip (fst (update tc tf y)) = flip y /\
              speeds_flip (fst (update tc tf y)) = speeds_flip y /\
              spreadIndex (fst (update tc tf y)) = spreadIndex y).
  { destruct (flip_pivot (flip y)) as [h|] eqn:Hp.
    - destruct (update_turn_progress h tc tf y I Hay Hp Hu)
        as (_ & G1 & G2 & _ & G3 & _). done.
    - destruct (update_cover_frame tc y)
        as (_ & G2 & _ & _ & G5 & _ & _ & _ & _ & _ & _ & _ & _ & G14 & _).
      unfold update. rewrite update_flip_not_turning by (right; by rewrite G5).
      done. }
  destruct Y as (G1 & G2 & G3).
  apply IH; [by apply update_inv | congruence | congruence | congruence].
Qed.

Lemma updates_before_completion (us : list (Q * Q)) x :
  inv x -> flip_active (flip x) = true ->
  Forall (before_completion x) us ->
  let x' := run (updates us) x in
  inv x' /\ flip x' = flip x /\ speeds_flip x' = speeds_flip x /\
  spreadIndex x' = spreadIndex x.
Proof. intros I Ha Hus. by apply updates_before_completion_from. Qed.




(** ** Books in use

    The states a book goes through: built by a constructor call that
    returned, then driven by any list of calls. *)

Section Reached.

Variable config : BookConfig.
Variable s0 : Book.
Hypothesis constructed : construct config = inl s0.
Variable cs : list Call.

Let s : Book := run cs s0.

Lemma reached_inv : inv s.
Proof. apply run_inv. by eapply construct_inv. Qed.

(** C1.  For every construction that succeeds and every sequence of
    [flipPage], [toggleCover] and [update] calls, the current spread index is
    in [[0, spreadCount - 1]]: never negative, never [>= spreadCount] (and it
    names a spread of the list given at construction). *)
Theorem spreadIndex_in_range :
  let spreadCount := of_nat (length (config_spreads config)) in
  0 <= spreadIndex s /\ spreadIndex s <= spreadCount - 1 /\
  spreadIndex s < spreadCount /\
  spreads s = config_spreads config /\
  is_Some (spread_at (spreadIndex s) s).
Proof.
  intros spreadCount.
  pose proof reached_inv as I.
  destruct (run_frame cs s0 (construct_inv _ _ constructed)) as (Hsp & _).
  fold s in Hsp. rewrite (construct_spreads _ _ constructed) in Hsp.
  destruct (inv_index _ I) as (n & Hn & Hlt). rewrite Hsp in Hlt.
  destruct (index_bounds _ _ _ Hn Hlt) as [H0 H1].
  split_and!; try done.
  - apply array_index_value in Hn. rewrite Hn. by apply of_nat_lt.
  - destruct (lookup_lt_is_Some_2 (spreads s) n) as [sp Hs]; [by rewrite Hsp |].
    exists (n, sp). by apply spread_at_Some.
Qed.




(** C4, amended.  A [flipPage] call while the cover is closed, while a cover
    animation is in flight, while a turn is active, or towards an index that
    is negative or not below the number of spreads is a silent no-op: it
    returns the state it was given (so nothing is created) and throws
    nothing.  In particular a second call made after [update] calls none of
    which has found the first turn complete changes nothing. *)
Theorem flipPage_noop dir1 t1 (us : list (Q * Q)) dir t :
  (forall b : Book,
     cover_open (cover b) = false \/ cover_anim (cover b) = true \/
     flip_active (flip b) = true \/ fadd (spreadIndex b) dir < 0 \/
     of_nat (length (spreads b)) <= fadd (spreadIndex b) dir ->
     flipPage dir t b = (b, None)) /\
  (flip_accepts dir1 s = true ->
   let s1 := fst (flipPage dir1 t1 s) in
   Forall (before_completion s1) us ->
   let s2 := run (updates us) s1 in
   flip_active (flip s2) = true /\ flipPage dir t s2 = (s2, None)).
Proof.
  split.
  - intros b H. apply flipPage_rejected.
    apply not_true_iff_false. rewrite flip_accepts_true.
    intros (Ho & Han & Hac & H0 & H1).
    destruct H as [H | [H | [H | [H | H]]]]; try congruence.
    + by apply (Qlt_not_le _ _ H).
    + by apply (Qlt_not_le _ _ H1).
  - intros G s1 Hus s2.
    pose proof reached_inv as I.
    destruct (flipPage_accepted dir1 t1 s I G) as ([Sa _ _ _ _ _ _ _ _] & I1 & _).
    fold s1 in Sa, I1.
    destruct (updates_before_completion us s1 I1 Sa Hus) as (_ & F & _).
    fold s2 in F.
    assert (X : flip_active (flip s2) = true) by (by rewrite F).
    split; [done |].
    apply flipPage_rejected. unfold flip_accepts. rewrite X.
    by rewrite andb_false_r.
Qed.


(** C9.  For every cache key the mirrored texture is created at most once:
    the first request for a key creates and stores the duplicate, and every
    later request with that key, whatever happened to the book in between,
    returns the identical handle and creates nothing.  The number of mirrored
    textures ever created is the number of keys in the cache. *)
Theorem flipped_texture_cached_once (cs' : list Call) tex tex' k t :
  let r := getFlippedTex tex k s in
  snd r = inl t ->
  (flippedCache s !! k = None ->
   exists tx, tex = Some tx /\ t = FlipXClone (textures_created s) tx /\
              textures_created (fst r) = S (textures_created s)) /\
  flippedCache (fst r) !! k = Some t /\
  (let s'' := run cs' (fst r) in
   getFlippedTex tex' k s'' = (s'', inl t) /\
   textures_created s'' = size (flippedCache s'')).
Proof.
  intros r Hr.
  pose proof reached_inv as I.
  pose proof (getFlippedTex_inv tex k s I) as I1. fold r in I1.
  assert (Hk : flippedCache (fst r) !! k = Some t).
  { subst r. unfold getFlippedTex in *.
    destruct (flippedCache s !! k) eqn:Hk; [cbn in *; congruence |].
    destruct tex; cbn in *; [| done].
    inversion Hr. apply lookup_insert_eq. }
  split_and!; try done.
  - intros Hnone. subst r. unfold getFlippedTex in *. rewrite Hnone in *.
    destruct tex as [tx|]; [| done]. cbn in Hr. inversion Hr. eauto.
  - intros s''.
    destruct (run_frame cs' (fst r) I1) as (_ & _ & _ & M).
    fold s'' in M. specialize (M _ _ Hk).
    split; [| apply inv_cache; by apply run_inv].
    unfold getFlippedTex. by rewrite M.
Qed.

(** C10, amended.  [flipPage] accepts any integer direction, not only +1 and
    -1: for an integer [dir], if the cover is open, no animation is in flight
    and [0 <= currentIndex + dir < spreadCount], the call starts a turn
    (so does [flipPage(0)], towards the current spread); every [dir] other
    than exactly 1 takes the backward, left-hinge path; and on completion,
    at the [update] that finds the turn complete, the index is
    [currentIndex + dir], the sum [flipPage] computed, which is the exact sum
    for integers below [2^53]. *)
Theorem flipPage_any_integer dir t tc tf :
  isInteger dir = true ->
  cover_open (cover s) = true -> cover_anim (cover s) = false ->
  flip_active (flip s) = false ->
  0 <= fadd (spreadIndex s) dir ->
  fadd (spreadIndex s) dir < of_nat (length (spreads s)) ->
  let s1 := fst (flipPage dir t s) in
  snd (flipPage dir t s) = None /\
  flip_active (flip s1) = true /\ flip_dir (flip s1) = dir /\
  is_Some (spread_at (fadd (spreadIndex s) dir) s) /\
  flip_pivot (flip s1) = Some (hinge_of_dir dir) /\
  (~ dir == 1 ->
   flip_pivot (flip s1) = Some pivotL /\ flip_hidden (flip s1) = Some leftPage) /\
  (js_ge (flip_u tf s1) 1 = true ->
   let s2 := fst (update tc tf s1) in
   flip_active (flip s2) = false /\ spreadIndex s2 = fadd (spreadIndex s) dir) /\
  (- (2 ^ 53) < spreadIndex s + dir -> spreadIndex s + dir < 2 ^ 53 ->
   fadd (spreadIndex s) dir == spreadIndex s + dir).
Proof.
  intros Hint Hopen Hanim Hact H0 H1 s1.
  pose proof reached_inv as I.
  assert (G : flip_accepts dir s = true) by (by apply flip_accepts_true).
  destruct (inv_index _ I) as (n0 & Hn0 & _).
  assert (Hsum : isInteger (spreadIndex s + dir) = true).
  { apply isInteger_plus; [by eapply array_index_isInteger | done]. }
  assert (Hat : is_Some (spread_at (fadd (spreadIndex s) dir) s)).
  { destruct (isInteger_array_index (fadd (spreadIndex s) dir)) as [n Hn]; [| done |].
    - by apply round_integer.
    - assert (Hlt : (n < length (spreads s))%nat).
      { apply array_index_value in Hn. rewrite Hn in H1. by apply of_nat_lt. }
      destruct (lookup_lt_is_Some_2 _ _ Hlt) as [sp Hsp].
      exists (n, sp). by apply spread_at_Some. }
  destruct (flipPage_accepted dir t s I G) as (S & I1 & _ & C).
  fold s1 in S, I1, C. destruct Hat as [[n sp] Hat]. rewrite Hat in C.
  destruct C as [C1 C2]. destruct S as [Sa Sd St Si _ Ssp _ _ _].
  pose proof (inv_turn _ I1) as T. rewrite C2 in T.
  split_and!; try done.
  - intros Hne. assert (Hh : hinge_of_dir dir = pivotL).
    { unfold hinge_of_dir, strict_eq. destruct (Qeq_bool dir 1) eqn:E; [| done].
      apply Qeq_bool_iff in E. done. }
    rewrite Hh in *. split; [done |]. by destruct T.
  - intros Hu s2.
    destruct (update_turn_complete _ tc tf s1 I1 Sa C2 Hu)
      as (x & Hx & E & Hidx & _).
    subst s2. rewrite Hx. cbn [fst]. destruct E as [_ E2 _ _ _ _ _ _ _ _ _ _ _ _ _ _].
    split; [by rewrite E2 | congruence].
  - intros B0 B1. by apply round_small_integer.
Qed.

End Reached.

End Arithmetic.

(** ** The properties at work on the sample books, in double arithmetic *)

Section Samples.

#[local] Existing Instance binary64.

Lemma book3_constructed : construct config3 = inl book3.
Proof. vm_compute. reflexivity. Qed.

(** C7, counterexample: two complete spreads and the initial index 1/2. *)
Lemma construct_half_raises :
  valid_spreads (config_spreads config_half) /\
  construct config_half = inr TypeError.
Proof.
  split; [| vm_compute; reflexivity].
  split; [done |]. repeat constructor; cbn; eauto.
Qed.

(** The sample configuration builds a book. *)
Lemma construct_validation_witness :
  exists s, construct config3 = inl s.
Proof.
  destruct (construct_validation config3) as (_ & _ & A0).
  destruct A0 as [_ A0].
  - split; [done |]. repeat constructor; cbn; eauto.
  - apply A0. vm_compute. reflexivity.
Defined.

(** The index after the sample session. *)
Lemma spreadIndex_in_range_witness :
  let s := run session book3 in
  0 <= spreadIndex s /\ spreadIndex s <= of_nat 3 - 1 /\
  spreadIndex s < of_nat 3 /\
  spreads s = config_spreads config3 /\
  is_Some (spread_at (spreadIndex s) s).
Proof.
  exact (spreadIndex_in_range config3 book3 book3_constructed session).
Defined.







(** C4, counterexample: at the last of three spreads [flipPage(0.5)] aims at
    2.5, past the last index 2, and is not a no-op: it marks the turn active
    and throws. *)
Lemma flipPage_fraction_past_last :
  let s := book3_last in
  let s1 := fst (flipPage (1 # 2) 0 s) in
  construct config3_last = inl s /\
  spreadIndex s == 2 /\ length (spreads s) = 3%nat /\
  of_nat (length (spreads s)) - 1 < fadd (spreadIndex s) (1 # 2) /\
  cover_open (cover s) = true /\ cover_anim (cover s) = false /\
  flip_active (flip s) = false /\
  snd (flipPage (1 # 2) 0 s) = Some TypeError /\
  flip_active (flip s1) = true.
Proof. vm_compute. repeat split; reflexivity. Qed.

(** [flipPage(-1)] on the first spread, and a second [flipPage(1)] during a
    turn. *)
Lemma flipPage_noop_witness :
  let s := book3 in
  let s2 := run (updates [(300, 300); (900, 900)]) (fst (flipPage 1 0 s)) in
  flipPage (-1) 0 s = (s, None) /\
  flip_active (flip s2) = true /\ flipPage 1 1000 s2 = (s2, None).
Proof.
  intros s s2.
  destruct (flipPage_noop config3 book3 book3_constructed []
              1 0 [(300, 300); (900, 900)] (-1) 0) as [A0 _].
  destruct (flipPage_noop config3 book3 book3_constructed []
              1 0 [(300, 300); (900, 900)] 1 1000) as [_ B].
  split.
  - apply A0. right; right; right; left. vm_compute. reflexivity.
  - apply B.
    + vm_compute. reflexivity.
    + repeat constructor; vm_compute; reflexivity.
Defined.



(** The key of the second spread's left page, requested again after a
    forward and a backward turn. *)
Lemma flipped_texture_cached_once_witness :
  let r := getFlippedTex (Some (Tex 2)) "flip:1:left" book3 in
  let s'' := run [CallFlipPage 1 0; CallUpdate 1200 1200; CallFlipPage (-1) 1300]
                 (fst r) in
  getFlippedTex (Some (Tex 7)) "flip:1:left" s'' = (s'', inl (FlipXClone 0 (Tex 2))).
Proof.
  intros r s''.
  destruct (flipped_texture_cached_once config3 book3 book3_constructed []
              [CallFlipPage 1 0; CallUpdate 1200 1200; CallFlipPage (-1) 1300]
              (Some (Tex 2)) (Some (Tex 7)) "flip:1:left" (FlipXClone 0 (Tex 2)))
    as (_ & _ & A0 & _).
  - vm_compute. reflexivity.
  - exact A0.
Defined.

(** C10, counterexample: with one spread and [dir = 1/2] every precondition
    holds, and [flipPage] throws with the turn marked active but no hinge
    chosen; no later [update] completes it. *)
Lemma flipPage_half_throws :
  let s := book1 in
  let s1 := fst (flipPage (1 # 2) 0 s) in
  construct config1 = inl s /\
  (cover_open (cover s) = true /\ cover_anim (cover s) = false /\
   flip_active (flip s) = false /\
   0 <= fadd (spreadIndex s) (1 # 2) /\
   fadd (spreadIndex s) (1 # 2) < of_nat (length (spreads s))) /\
  snd (flipPage (1 # 2) 0 s) = Some TypeError /\
  flip_pivot (flip s1) = None /\
  flip_active (flip (fst (update 5000 5000 s1))) = true /\
  spreadIndex (fst (update 5000 5000 s1)) = spreadIndex s.
Proof. vm_compute. repeat split; try reflexivity; discriminate. Qed.

(** [flipPage(0)] on the first spread. *)
Lemma flipPage_any_integer_witness :
  let s1 := fst (flipPage 0 0 book3) in
  snd (flipPage 0 0 book3) = None /\
  flip_active (flip s1) = true /\
  flip_pivot (flip s1) = Some pivotL /\
  spreadIndex (fst (update 1200 1200 s1)) = fadd (spreadIndex book3) 0.
Proof.
  intros s1.
  destruct (flipPage_any_integer config3 book3 book3_constructed [] 0 0 1200 1200)
    as (A0 & B & _ & _ & _ & C & D).
  - vm_compute. reflexivity.
  - vm_compute. reflexivity.
  - vm_compute. reflexivity.
  - vm_compute. reflexivity.
  - vm_compute. discriminate.
  - vm_compute. reflexivity.
  - split_and!; [exact A0 | exact B | |].
    + apply C. vm_compute. discriminate.
    + apply D. vm_compute. reflexivity.
Defined.

End Samples.
(** * Further properties *)

(** ** Cache keys *)

Lemma string_app_cons (a : Ascii.ascii) (s t : string) :
  String a s +:+ t = String a (s +:+ t).
Proof. reflexivity. Qed.

Lemma string_app_nil (t : string) : "" +:+ t = t.
Proof. reflexivity. Qed.

Lemma string_snoc_inj (s1 s2 : string) (c1 c2 : Ascii.ascii) :
  s1 +:+ String c1 "" = s2 +:+ String c2 "" -> s1 = s2 /\ c1 = c2.
Proof.
  revert s2. induction s1 as [|a s1 IH]; intros [|b s2] H;
    rewrite ?string_app_cons, ?string_app_nil in H.
  - injection H as ->. by split.
  - injection H as -> H. destruct s2; discriminate.
  - injection H as -> H. destruct s1; discriminate.
  - injection H as -> H. destruct (IH _ H) as [-> ->]. by split.
Qed.

Lemma string_app_assoc (s1 s2 s3 : string) :
  (s1 +:+ s2) +:+ s3 = s1 +:+ (s2 +:+ s3).
Proof.
  induction s1 as [|a s1 IH]; [done |].
  rewrite !string_app_cons. by f_equal.
Qed.

Lemma cacheId_left_right (a b : string) :
  a +:+ ":left" <> b +:+ ":right".
Proof.
  intros H.
  change ":left" with ((":le" +:+ "f") +:+ "t") in H.
  change ":right" with ((":rig" +:+ "h") +:+ "t") in H.
  rewrite <- !string_app_assoc in H.
  apply string_snoc_inj in H as [H _].
  apply string_snoc_inj in H as [_ H]. discriminate.
Qed.

Lemma string_app_inv_tail_left (a b : string) :
  a +:+ ":left" = b +:+ ":left" -> a = b.
Proof.
  intros H.
  change ":left" with ((((":" +:+ "l") +:+ "e") +:+ "f") +:+ "t") in H.
  rewrite <- !string_app_assoc in H.
  do 5 (apply string_snoc_inj in H as [H _]). done.
Qed.

Lemma string_app_inv_tail_right (a b : string) :
  a +:+ ":right" = b +:+ ":right" -> a = b.
Proof.
  intros H.
  change ":right" with (((((":" +:+ "r") +:+ "i") +:+ "g") +:+ "h") +:+ "t") in H.
  rewrite <- !string_app_assoc in H.
  do 6 (apply string_snoc_inj in H as [H _]). done.
Qed.

(** Distinct (index, side) pairs have distinct cache keys. *)
Lemma cacheId_of_inj h n h' n' :
  cacheId_of h n = cacheId_of h' n' -> h = h' /\ n = n'.
Proof.
  unfold cacheId_of. intros H.
  destruct h, h'; apply (inj (String.app "flip:")) in H.
  - apply string_app_inv_tail_right in H. split; [done |]. by apply (inj pretty).
  - symmetry in H. by apply cacheId_left_right in H.
  - by apply cacheId_left_right in H.
  - apply string_app_inv_tail_left in H. split; [done |]. by apply (inj pretty).
Qed.

Section Further.

Context {arith : Arith}.

(** ** What the scene and the notices show *)

Lemma last_spread_notice_snoc l n :
  last_spread_notice (l ++ [n]) =
    match n with
    | onSpreadChange i total => Some (i, total)
    | onCoverToggle _ => last_spread_notice l
    end.
Proof. unfold last_spread_notice. rewrite fold_left_app. by destruct n. Qed.

Lemma last_cover_notice_snoc l n :
  last_cover_notice (l ++ [n]) =
    match n with
    | onCoverToggle o => Some o
    | onSpreadChange _ _ => last_cover_notice l
    end.
Proof. unfold last_cover_notice. rewrite fold_left_app. by destruct n. Qed.

Lemma construct_shown config s : construct config = inl s -> shown s.
Proof.
  unfold construct. destruct (validateConfig _) eqn:V; [done |].
  unfold setSpread.
  destruct (spread_at _ _) as [[n sp]|] eqn:Hat; [| done].
  intros [= <-]. split; try done.
  - exists n, sp. split; [exact Hat | by split].
Qed.

Lemma toggleCover_shown t s : shown s -> shown (toggleCover t s).
Proof.
  intros S. unfold toggleCover.
  destruct (flip_active (flip s)) eqn:Ha; [done |].
  destruct (cover_anim (cover s)) eqn:Hc; [done |]. cbn.
  destruct S as [S1 S2 S3 S4 SU S5 S6].
  split.
  - cbn. by rewrite Ha.
  - exact S2.
  - exact S3.
  - exact S4.
  - exact SU.
  - cbn [notices notify set_cover]. rewrite last_spread_notice_snoc. exact S5.
  - cbn [notices notify set_cover]. by rewrite last_cover_notice_snoc.
Qed.

Lemma flipPage_shown dir t s :
  inv s -> shown s -> shown (fst (flipPage dir t s)).
Proof.
  intros I S. destruct (flip_accepts dir s) eqn:G;
    [| by rewrite flipPage_rejected].
  rewrite (flipPage_accepted_eq _ _ _ G), flip_branch_eq.
  change (spread_at (fadd (spreadIndex s) dir) (flip_start dir t s))
    with (spread_at (fadd (spreadIndex s) dir) s).
  apply flip_accepts_true in G as (Gopen & Ganim & Gact & G0 & G1).
  destruct I as [Isp _ _ _ Iidle _].
  destruct (Iidle Gact) as (Hp & _).
  destruct S as [S1 S2 S3 S4 SU S5 S6].
  rewrite Hp in SU. destruct (SU Gact) as [SUl SUr].
  remember (hinge_of_dir dir) as h eqn:Hh. clear Hh.
  destruct (spread_at (fadd (spreadIndex s) dir) s) as [[n sp]|] eqn:Hat.
  - apply spread_at_Some in Hat as Hat'. destruct Hat' as [Hn Hsp].
    apply validateConfig_None in Isp as Hv. destruct Hv as [_ Hv].
    destruct (Hv _ _ Hsp) as [Hl Hr].
    assert (Hfar : is_Some (far_side h sp)) by (by destruct h).
    destruct Hfar as [tx Htx].
    unfold flip_sheet, getFlippedTex. rewrite Htx.
    match goal with |- context [flippedCache ?s' !! ?k] =>
      change (flippedCache s') with (flippedCache s) end.
    destruct (flippedCache s !! cacheId_of h n) as [bt|] eqn:Hc.
    + destruct (S3 _ _ Hc)
        as (h' & n' & sp' & tx' & serial & Hk & Hsp' & Hf' & -> & Hlt).
      apply cacheId_of_inj in Hk as [<- <-].
      assert (sp' = sp) as -> by congruence.
      assert (tx' = tx) as -> by congruence.
      cbn [fst]. split.
      * intros _. exact Gopen.
      * destruct S2 as (m & spm & A & B & C). exists m, spm.
        split; [exact A |]. by destruct h.
      * exact S3.
      * intros g Hg. cbn in Hg. injection Hg as <-.
        eexists _, _, n, sp, tx, serial.
        split_and!; try reflexivity; try done; by destruct h.
      * cbn. by destruct h.
      * exact S5.
      * exact S6.
    + cbn [fst]. split.
      * intros _. exact Gopen.
      * destruct S2 as (m & spm & A & B & C). exists m, spm.
        split; [exact A |]. by destruct h.
      * intros k t' Hk. cbn in Hk.
        destruct (decide (k = cacheId_of h n)) as [-> | Hne].
        -- rewrite lookup_insert_eq in Hk. injection Hk as <-.
           exists h, n, sp, tx, (textures_created s).
           split_and!; try done. cbn. lia.
        -- rewrite lookup_insert_ne in Hk by done.
           destruct (S3 _ _ Hk)
             as (h' & n' & sp' & tx' & serial & ? & ? & ? & ? & ?).
           exists h', n', sp', tx', serial. split_and!; try done. cbn. lia.
      * intros g Hg. cbn in Hg. injection Hg as <-.
        eexists _, _, n, sp, tx, (textures_created s).
        split_and!; try reflexivity; try done; by destruct h.
      * cbn. by destruct h.
      * exact S5.
      * exact S6.
  - cbn [fst]. split.
    + intros _. exact Gopen.
    + destruct S2 as (m & spm & A & B & C). exists m, spm.
      split; [exact A |]. by destruct h.
    + exact S3.
    + intros g Hg. cbn in Hg. congruence.
    + cbn. rewrite Hp. intros [=].
    + exact S5.
    + exact S6.
Qed.

Lemma advance_shown h t s :
  turn_ok h s -> flip_pivot (flip s) = Some h -> shown s -> shown (advance h t s).
Proof.
  intros T Hp [S1 S2 S3 S4 SU S5 S6].
  destruct T as [Ha Hh Hhid Hu Ho Hs Hoh Hph Hrev Hnx].
  rewrite Hp in SU.
  unfold advance. rewrite Ho.
  split; cbn; first [done | by destruct h | rewrite Hp; by destruct h].
Qed.

Lemma update_cover_notices t s : notices (update_cover t s) = notices s.
Proof.
  destruct_book s. unfold update_cover, hide_unders_if_idle. book_eval.
  destruct an; [destruct (js_ge _ 1) |]; destruct a; reflexivity.
Qed.

Lemma update_cover_shown t s : shown s -> shown (update_cover t s).
Proof.
  intros [S1 S2 S3 S4 SU S5 S6].
  destruct (update_cover_frame t s)
    as (F1 & F2 & F3 & F4 & F5 & F6 & F7 & F8 & F9 & F10 & F11 & F12 & F13
        & F14 & F15 & F16).
  split.
  - by rewrite F5, F11.
  - destruct S2 as (n & sp & H1 & H2 & H3). exists n, sp.
    unfold map_of in *. rewrite F6. split; [| done].
    rewrite F2. apply spread_at_Some. rewrite F1. by apply spread_at_Some.
  - rewrite F1, F3, F4. done.
  - intros h. rewrite F5, F2. intros Hp.
    destruct (S4 h Hp) as (f & b & n & sp & tx & serial & ? & ? & ? & ? & ? & ? & ? & Hat & ? & ?).
    exists f, b, n, sp, tx, serial. split_and!; try done.
    + destruct h; unfold map_of, pageMat_of in *; by rewrite F6.
    + apply spread_at_Some. rewrite F1. by apply spread_at_Some.
  - rewrite F5. destruct (flip_pivot (flip s)) as [h|] eqn:Hp.
    + destruct (S4 h eq_refl) as (_ & _ & _ & _ & _ & _ & _ & _ & _).
      destruct (flip_active (flip s)) eqn:Ha.
      * unfold visible in *. by rewrite (F13 eq_refl).
      * destruct (update_cover_hides t s Ha) as [U1 U2]. by destruct h.
    + intros Ha. by apply update_cover_hides.
  - by rewrite update_cover_notices, F1, F2.
  - by rewrite update_cover_notices, F11.
Qed.

(** The notice sent at the end of a turn. *)
Lemma endFlip_notices h s :
  flip_pivot (flip s) = Some h -> turn_ok h s ->
  notices (fst (endFlip s)) =
    notices s ++ [onSpreadChange (fadd (spreadIndex s) (flip_dir (flip s)))
                                 (length (spreads s))].
Proof.
  intros Hp [Ha Hh Hhid Hu Ho (f & b & Hf & Hb & Hne & Hch) Hoh Hph Hrev
             (n & sp & Hat & Hmap)].
  apply spread_at_Some in Hat as Hat'. destruct Hat' as [Hi Hsp].
  assert (Hn : (n < length (spreads s))%nat) by (by eapply lookup_lt_Some).
  destruct_book s.
  book_eval_in Hp; book_eval_in Ha; book_eval_in Hhid; book_eval_in Hu;
  book_eval_in Ho; book_eval_in Hf; book_eval_in Hb; book_eval_in Hn;
  book_eval_in Hsp; book_eval_in Hi. subst.
  destruct h; book_eval_in Hch; book_eval_in Hoh; subst; book_eval;
    (match goal with |- context [setSpread ?i ?s0] =>
       destruct (setSpread_ok i s0 n Hi Hn) as (sp' & Hsp' & ->) end);
    book_eval; reflexivity.
Qed.

Lemma ended_shown h s s' :
  flip_pivot (flip s) = Some h -> shown s -> ended h s s' ->
  notices s' = notices s ++ [onSpreadChange (fadd (spreadIndex s) (flip_dir (flip s)))
                                            (length (spreads s))] ->
  shown s'.
Proof.
  intros Hp [S1 S2 S3 S4 SU S5 S6]
         [E1 E2 E3 E4 E5 E6 E7 E8 E9 E10 E11 E12 E13 E14 E15 E16] N.
  rewrite Hp in SU.
  split.
  - by rewrite E2.
  - done.
  - rewrite E11, E14, E15. done.
  - intros g. by rewrite E2.
  - rewrite E2. cbn. intros _. rewrite SU in E9. by destruct h.
  - by rewrite N, last_spread_notice_snoc, E1, E11.
  - by rewrite N, last_cover_notice_snoc, E16.
Qed.

Lemma update_flip_shown t s :
  inv s -> shown s -> shown (fst (update_flip t s)).
Proof.
  intros I S.
  destruct (flip_active (flip s)) eqn:Ha;
    [| by rewrite update_flip_not_turning by auto].
  destruct (flip_pivot (flip s)) as [h|] eqn:Hp;
    [| by rewrite update_flip_not_turning by auto].
  rewrite (update_flip_turning h) by done.
  pose proof (inv_turn _ I) as T. rewrite Hp in T.
  pose proof (advance_turn_ok h t s T) as T'.
  pose proof (advance_shown h t s T Hp S) as S'.
  destruct (advance_frame h t s T) as (_ & _ & _ & _ & _ & F6 & _).
  destruct (js_ge _ 1); [| done].
  pose proof (endFlip_notices h (advance h t s)) as N.
  destruct (endFlip_turn h (advance h t s)) as (s' & Hs' & E);
    [by rewrite F6 | done |].
  rewrite Hs' in *. cbn [fst] in *.
  eapply ended_shown; [by rewrite F6 | exact S' | exact E |].
  apply N; [by rewrite F6 | done].
Qed.

Lemma call_shown c s : inv s -> shown s -> shown (fst (call c s)).
Proof.
  intros I S. destruct c; cbn [call fst].
  - by apply toggleCover_shown.
  - by apply flipPage_shown.
  - apply update_flip_shown; [by apply update_cover_inv | by apply update_cover_shown].
Qed.

Lemma run_shown cs s : inv s -> shown s -> shown (run cs s).
Proof.
  revert s. induction cs as [|c cs IH]; intros s I S; [done |].
  apply IH; [by apply call_inv | by apply call_shown].
Qed.

(** ** Calls that cannot throw *)

Lemma array_index_Qeq q q' n :
  q == q' -> array_index q = Some n -> array_index q' = Some n.
Proof.
  intros E H%array_index_value. apply array_index_of_value. by rewrite <- E.
Qed.

Lemma integral_target dir s :
  inv s -> isInteger dir = true -> flip_accepts dir s = true ->
  is_Some (spread_at (fadd (spreadIndex s) dir) s).
Proof.
  intros I Hint G. apply flip_accepts_true in G as (_ & _ & _ & H0 & H1).
  destruct (inv_index _ I) as (n0 & Hn0 & _).
  destruct (isInteger_array_index (fadd (spreadIndex s) dir)) as [n Hn]; [| done |].
  - apply round_integer, isInteger_plus; [by eapply array_index_isInteger | done].
  - assert (Hlt : (n < length (spreads s))%nat).
    { apply array_index_value in Hn. rewrite Hn in H1. by apply of_nat_lt. }
    destruct (lookup_lt_is_Some_2 _ _ Hlt) as [sp Hsp].
    exists (n, sp). by apply spread_at_Some.
Qed.

Lemma update_returns tc tf s : inv s -> snd (update tc tf s) = None.
Proof.
  intros I.
  destruct (flip_active (flip s)) eqn:Ha;
    [destruct (flip_pivot (flip s)) as [h|] eqn:Hp |].
  - destruct (js_ge (flip_u tf s) 1) eqn:Hu.
    + by destruct (update_turn_complete h tc tf s I Ha Hp Hu) as (s' & -> & _).
    + by destruct (update_turn_progress h tc tf s I Ha Hp Hu) as (? & _).
  - destruct (update_cover_frame tc s) as (_ & _ & _ & _ & F5 & _).
    unfold update. by rewrite update_flip_not_turning by (right; by rewrite F5).
  - by rewrite update_idle.
Qed.

Lemma update_hinged tc tf s :
  inv s -> hinged_prop s -> hinged_prop (fst (update tc tf s)).
Proof.
  intros I H. unfold hinged_prop in *.
  destruct (flip_active (flip s)) eqn:Ha.
  - destruct (H eq_refl) as [h Hp].
    destruct (js_ge (flip_u tf s) 1) eqn:Hu.
    + destruct (update_turn_complete h tc tf s I Ha Hp Hu) as (s' & -> & E & _).
      cbn [fst]. destruct E as [_ E2 _ _ _ _ _ _ _ _ _ _ _ _ _ _].
      by rewrite E2.
    + destruct (update_turn_progress h tc tf s I Ha Hp Hu) as (_ & F & _).
      rewrite F, Hp. eauto.
  - rewrite update_idle by done. cbn [fst].
    destruct (update_cover_frame tc s) as (_ & _ & _ & _ & F5 & _).
    rewrite F5, Ha. done.
Qed.

Lemma call_sound c s :
  inv s -> hinged_prop s -> integral c ->
  snd (call c s) = None /\ hinged_prop (fst (call c s)).
Proof.
  intros I H Hc. destruct c as [t | dir t | tc tf]; cbn [call fst snd].
  - split; [done |]. unfold toggleCover, hinged_prop in *.
    by destruct (flip_active (flip s) || cover_anim (cover s)).
  - cbn in Hc. destruct (flip_accepts dir s) eqn:G.
    + destruct (integral_target dir s I Hc G) as [[n sp] Hat].
      destruct (flipPage_accepted dir t s I G) as (_ & _ & _ & C).
      rewrite Hat in C. destruct C as [C1 C2]. split; [done |].
      intros _. rewrite C2. eauto.
    + by rewrite flipPage_rejected.
  - split; [by apply update_returns | by apply update_hinged].
Qed.

Lemma construct_hinged config s : construct config = inl s -> hinged_prop s.
Proof.
  unfold construct. destruct (validateConfig _); [done |].
  unfold setSpread. destruct (spread_at _ _) as [[n sp]|]; [| done].
  by intros [= <-].
Qed.

Lemma run_sound cs s :
  inv s -> hinged_prop s -> Forall integral cs -> hinged_prop (run cs s).
Proof.
  intros I H Hcs. revert s I H.
  induction Hcs as [|c cs Hc Hcs IH]; intros s I H; [done |].
  change (run (c :: cs) s) with (run cs (fst (call c s))).
  apply IH; [by apply call_inv | by apply call_sound].
Qed.

(** ** The host *)

Lemma flipPage_unit_sound dir t s :
  inv s -> shown s -> hinged_prop s -> isInteger dir = true ->
  snd (flipPage dir t s) = None /\
  inv (fst (flipPage dir t s)) /\ shown (fst (flipPage dir t s)) /\
  hinged_prop (fst (flipPage dir t s)).
Proof.
  intros I S H Hint.
  destruct (call_sound (CallFlipPage dir t) s I H Hint) as [A B].
  split_and!; [done | by apply flipPage_inv | by apply flipPage_shown | done].
Qed.

Lemma toggleCover_ok t s :
  inv s -> shown s -> hinged_prop s ->
  inv (toggleCover t s) /\ shown (toggleCover t s) /\
  hinged_prop (toggleCover t s).
Proof.
  intros I S H.
  destruct (call_sound (CallToggleCover t) s I H Logic.I) as [_ B].
  split_and!; [by apply toggleCover_inv | by apply toggleCover_shown | done].
Qed.

Lemma handle_ok e g :
  host_ok g -> snd (handle e g) = None /\ host_ok (fst (handle e g)).
Proof.
  intros (I & S & H). unfold host_ok.
  destruct e as [x y t | x y t hit tf | hits t | key t | tc tf]; cbn [handle].
  - done.
  - unfold onPointerUp.
    destruct (flip_active (flip (host_book g))); [done |].
    destruct (js_gt _ 25 || js_gt _ 350); [done |].
    destruct hit as [name|]; [| done].
    destruct (String.eqb name "rightPage").
    + destruct (flipPage_unit_sound 1 tf _ I S H eq_refl) as (A & I1 & S1 & H1).
      rewrite A.
      destruct (String.eqb name "leftPage"); [| done].
      destruct (flipPage_unit_sound (-1) tf _ I1 S1 H1 eq_refl) as (B & ? & ? & ?).
      done.
    + cbn [fst snd].
      destruct (String.eqb name "leftPage"); [| done].
      destruct (flipPage_unit_sound (-1) tf _ I S H eq_refl) as (B & ? & ? & ?).
      done.
  - unfold toggleCoverFromPointer.
    destruct (flip_active (flip (host_book g))); [done |].
    destruct hits; [| done]. split; [done |]. by apply toggleCover_ok.
  - unfold onKeyDown.
    set (b := if String.eqb key "c" || String.eqb key "C" then _ else _).
    assert (Hb : inv b /\ shown b /\ hinged_prop b).
    { subst b. destruct (String.eqb key "c" || String.eqb key "C"); [| done].
      by apply toggleCover_ok. }
    destruct Hb as (Ib & Sb & Hb).
    destruct (flip_active (flip b)); [done |].
    destruct (String.eqb key "ArrowRight").
    + destruct (flipPage_unit_sound 1 t _ Ib Sb Hb eq_refl) as (A & I1 & S1 & H1).
      rewrite A.
      destruct (String.eqb key "ArrowLeft"); [| done].
      destruct (flipPage_unit_sound (-1) t _ I1 S1 H1 eq_refl) as (B & ? & ? & ?).
      done.
    + cbn [fst snd].
      destruct (String.eqb key "ArrowLeft"); [| done].
      destruct (flipPage_unit_sound (-1) t _ Ib Sb Hb eq_refl) as (B & ? & ? & ?).
      done.
  - unfold animate. cbn [fst snd host_book with_book].
    split; [by apply update_returns |].
    split_and!; [by apply update_inv | | by apply update_hinged].
    apply update_flip_shown; [by apply update_cover_inv | by apply update_cover_shown].
Qed.

Lemma play_ok es g : host_ok g -> host_ok (play es g).
Proof.
  revert g. induction es as [|e es IH]; intros g G; [done |].
  apply IH. by apply handle_ok.
Qed.

Lemma host_of_ok config s : construct config = inl s -> host_ok (host_of s).
Proof.
  intros H. split_and!; cbn.
  - by eapply construct_inv.
  - by eapply construct_shown.
  - by eapply construct_hinged.
Qed.

(** ** Books in use, continued *)

Section ReachedMore.

Variable config : BookConfig.
Variable s0 : Book.
Hypothesis constructed : construct config = inl s0.
Variable cs : list Call.

Let s : Book := run cs s0.

Lemma reached_more : inv s /\ shown s.
Proof.
  split.
  - apply run_inv. by eapply construct_inv.
  - apply run_shown; [by eapply construct_inv | by eapply construct_shown].
Qed.

(** X1.  A turn and a cover animation are never in progress together, and a
    turn is only ever in progress while the cover is open. *)
Theorem animations_exclusive :
  flip_active (flip s) = true ->
  cover_anim (cover s) = false /\ cover_open (cover s) = true.
Proof.
  destruct reached_more as [I S]. intros Ha. split.
  - by apply (inv_exclusive _ I).
  - by apply (shown_open _ S).
Qed.

(** X2.  The two static pages always carry the textures of the current
    spread, during a turn as well as between turns. *)
Theorem static_pages_show_current_spread :
  exists n sp,
    spread_at (spreadIndex s) s = Some (n, sp) /\
    map_of leftMat s = left sp /\ map_of rightMat s = right sp /\
    is_Some (left sp) /\ is_Some (right sp).
Proof.
  destruct reached_more as [I S].
  destruct (shown_pages _ S) as (n & sp & Hat & L & R).
  exists n, sp. split_and!; try done.
  - apply spread_at_Some in Hat as [_ Hsp].
    by apply (proj2 (proj1 (validateConfig_None _) (inv_spreads _ I)) _ _ Hsp).
  - apply spread_at_Some in Hat as [_ Hsp].
    by apply (proj2 (proj1 (validateConfig_None _) (inv_spreads _ I)) _ _ Hsp).
Qed.

(** X3.  While a turn has its hinge, the hinge carries exactly the two meshes
    of the turning sheet: the front one, front-sided, shows the texture of the
    static page being turned, and the back one, back-sided, shows a mirrored
    duplicate of the next spread's texture of the opposite side. *)
Theorem turning_sheet_faces h :
  flip_pivot (flip s) = Some h ->
  exists f b n current m next tx serial,
    flip_frontMesh (flip s) = Some f /\ flip_backMesh (flip s) = Some b /\
    children (pivot h s) = [f; b] /\
    children (pivot (other_hinge h) s) = [] /\
    spread_at (spreadIndex s) s = Some (n, current) /\
    mesh_side f = FrontSide /\ mesh_map f = same_side h current /\
    spread_at (fadd (spreadIndex s) (flip_dir (flip s))) s = Some (m, next) /\
    far_side h next = Some tx /\
    mesh_side b = BackSide /\ mesh_map b = Some (FlipXClone serial tx) /\
    mesh_geometry f = geoTurn_of h /\ mesh_geometry b = geoTurn_of h.
Proof.
  destruct reached_more as [I S]. intros Hp.
  pose proof (inv_turn _ I) as T. rewrite Hp in T.
  destruct T as [_ _ _ _ _ (f & b & Hf & Hb & _ & Hch) Hoh _ _ _].
  destruct (shown_sheet _ S h Hp)
    as (f' & b' & m & next & tx & serial & Hf' & Hb' & A1 & A2 & A3 & A4 & A5
        & A6 & A7 & A8).
  assert (f' = f) as -> by congruence. assert (b' = b) as -> by congruence.
  destruct (shown_pages _ S) as (n & cur & Hat & L & R).
  exists f, b, n, cur, m, next, tx, serial.
  split_and!; try done.
  rewrite A3. by destruct h.
Qed.

(** X4.  Every entry of the flipped-texture cache sits under the key of a
    spread index and a side, and is a mirrored duplicate of that spread's
    texture of that side. *)
Theorem flipped_cache_coherent k t :
  flippedCache s !! k = Some t ->
  exists h n sp tx serial,
    k = cacheId_of h n /\ spreads s !! n = Some sp /\
    far_side h sp = Some tx /\ t = FlipXClone serial tx.
Proof.
  destruct reached_more as [I S]. intros Hk.
  destruct (shown_cache _ S _ _ Hk) as (h & n & sp & tx & serial & ? & ? & ? & ? & _).
  by exists h, n, sp, tx, serial.
Qed.

(** X5.  When no turn is active the book is at rest: both static pages are
    visible, both reveal surfaces are hidden, and no transient mesh hangs on
    either hinge. *)
Theorem idle_book_at_rest :
  flip_active (flip s) = false ->
  visible leftPage s = true /\ visible rightPage s = true /\
  visible underLeft s = false /\ visible underRight s = false /\
  children (pivotL_node s) = [] /\ children (pivotR_node s) = [] /\
  flip_frontMesh (flip s) = None /\ flip_backMesh (flip s) = None.
Proof.
  destruct reached_more as [I S]. intros Ha.
  destruct (inv_idle _ I Ha) as (Hp & HL & HR).
  pose proof (inv_turn _ I) as T. rewrite Hp in T. destruct T.
  pose proof (shown_unders _ S) as U. rewrite Hp in U.
  destruct (U Ha). done.
Qed.

(** X6.  The last spread-changed notice always reports the current spread
    index and the spread count, and the last cover-toggled notice, if any,
    the current state of the cover, which is open until the first toggle. *)
Theorem notices_in_sync :
  last_spread_notice (notices s) = Some (spreadIndex s, length (spreads s)) /\
  default true (last_cover_notice (notices s)) = cover_open (cover s).
Proof.
  destruct reached_more as [I S]. split.
  - by apply shown_spread_notice.
  - by apply shown_cover_notice.
Qed.

(** X7.  Calls whose directions are integers never throw and never leave a
    turn without its hinge, so that an active turn is ended by the [update]
    that finds it complete (the progress it computes is [>= 1]). *)
Theorem integral_runs_never_stuck c tc tf :
  Forall integral cs -> integral c ->
  snd (call c s) = None /\
  (flip_active (flip s) = true ->
   is_Some (flip_pivot (flip s)) /\
   (js_ge (flip_u tf s) 1 = true ->
    flip_active (flip (fst (update tc tf s))) = false)).
Proof.
  destruct reached_more as [I S]. intros Hcs Hc.
  assert (H : hinged_prop s).
  { apply run_sound; [by eapply construct_inv | by eapply construct_hinged | done]. }
  split; [by apply call_sound |].
  intros Ha. destruct (H Ha) as [h Hp]. split; [by exists h |].
  intros Hu.
  destruct (update_turn_complete h tc tf s I Ha Hp Hu) as (s' & -> & E & _).
  cbn [fst]. destruct E as [_ E2 _ _ _ _ _ _ _ _ _ _ _ _ _ _]. by rewrite E2.
Qed.

(** X8.  While the cover is closed no call other than [toggleCover] changes
    the spread, the page textures or the state of the cover, and none starts
    a turn. *)
Theorem closed_book_keeps_spread (cs' : list Call) :
  cover_open (cover s) = false -> Forall keeps_cover cs' ->
  let s' := run cs' s in
  spreadIndex s' = spreadIndex s /\ cover_open (cover s') = false /\
  flip_active (flip s') = false /\
  map_of leftMat s' = map_of leftMat s /\ map_of rightMat s' = map_of rightMat s.
Proof.
  destruct reached_more as [I S]. intros Hclosed Hcs'.
  assert (Ha : flip_active (flip s) = false).
  { destruct (flip_active (flip s)) eqn:Ha; [| done].
    pose proof (shown_open _ S Ha). congruence. }
  clear I S. revert Ha Hclosed. generalize s. clear s.
  induction Hcs' as [|c cs' Hc Hcs' IH]; intros s Ha Hclosed; [done |].
  change (run (c :: cs') s) with (run cs' (fst (call c s))).
  destruct c as [t | dir t | tc tf]; [done | |]; cbn [call fst].
  - rewrite flipPage_rejected; [by apply IH |].
    unfold flip_accepts. by rewrite Hclosed.
  - rewrite update_idle by done. cbn [fst].
    destruct (update_cover_frame tc s)
      as (_ & F2 & _ & _ & F5 & F6 & _ & _ & _ & _ & F11 & _).
    destruct (IH (update_cover tc s)) as (A & B & C & D & E).
    + by rewrite F5.
    + by rewrite F11.
    + unfold map_of in *. rewrite F6 in D, E. split_and!; try done. congruence.
Qed.

End ReachedMore.

(** ** [setSpread] and the constructor *)

(** X11.  On a book with a valid spread list [setSpread] never throws for an
    integer index: an index in range is taken as it is, a negative one becomes
    the first spread and one past the end the last spread; the two static
    pages get the textures of the spread chosen and one notice reports it. *)
Theorem setSpread_clamps i s :
  validateConfig (spreads s) = None -> isInteger i = true ->
  let s' := fst (setSpread i s) in
  let last := of_nat (length (spreads s)) - 1 in
  snd (setSpread i s) = None /\
  (0 <= i -> i <= last -> spreadIndex s' = i) /\
  (i < 0 -> spreadIndex s' = 0) /\
  (last < i -> spreadIndex s' = last) /\
  (exists n sp,
     spread_at (spreadIndex s') s' = Some (n, sp) /\
     map_of leftMat s' = left sp /\ map_of rightMat s' = right sp) /\
  notices s' = notices s ++ [onSpreadChange (spreadIndex s') (length (spreads s))].
Proof.
  intros V Hint s' last.
  apply validateConfig_None in V as [Hlen _].
  assert (Hlast : 0 <= last).
  { unfold last. rewrite of_nat_pred by done. change 0 with (of_nat 0).
    apply of_nat_le. lia. }
  destruct (clamp_bounds i last Hlast) as [B0 B1].
  pose proof (isInteger_clamp i _ Hlen Hint) as Hc. fold last in Hc.
  destruct (isInteger_array_index _ Hc B0) as [n Hn].
  assert (Hlt : (n < length (spreads s))%nat).
  { apply array_index_value in Hn. rewrite Hn in B1. unfold last in B1.
    rewrite of_nat_pred in B1 by done. apply of_nat_le in B1. lia. }
  destruct (lookup_lt_is_Some_2 _ _ Hlt) as [sp Hsp].
  assert (E : setSpread i s =
    (notify (onSpreadChange (clamp i 0 last) (length (spreads s)))
       (set_map rightMat (right sp) (set_map leftMat (left sp)
          (set_spreadIndex (clamp i 0 last) s))), None)).
  { unfold setSpread. fold last. unfold spread_at.
    cbn [spreadIndex set_spreadIndex spreads]. by rewrite Hn, Hsp. }
  subst s'. rewrite E. cbn [fst snd].
  split_and!; try done.
  - intros H0 H1. cbn. by apply clamp_id.
  - intros Hneg. cbn. unfold clamp, Math_max, Math_min.
    assert (H1 : Qle_bool i last = true).
    { apply Qle_bool_iff. apply Qlt_le_weak. by eapply Qlt_le_trans. }
    rewrite H1.
    assert (H2 : Qle_bool 0 i = false).
    { apply not_true_iff_false. rewrite Qle_bool_iff. by apply Qlt_not_le. }
    by rewrite H2.
  - intros Hbig. cbn. unfold clamp, Math_max, Math_min.
    assert (H1 : Qle_bool i last = false).
    { apply not_true_iff_false. rewrite Qle_bool_iff. by apply Qlt_not_le. }
    rewrite H1.
    assert (H2 : Qle_bool 0 last = true) by (by apply Qle_bool_iff).
    by rewrite H2.
  - exists n, sp. split_and!; try done.
    apply spread_at_Some. by split.
Qed.

(** ** Cache keys, again *)

(** X12.  The cache keys of two different (spread index, side) pairs are
    different. *)
Theorem cache_keys_distinct h n h' n' :
  cacheId_of h n = cacheId_of h' n' -> h = h' /\ n = n'.
Proof. apply cacheId_of_inj. Qed.

(** ** Input during a turn *)

(** X13.  While a turn is active, no pointer or keyboard event changes the
    book: the handlers return early, and for the key [c], which the keyboard
    handler passes on before looking, [toggleCover] itself declines. *)
Theorem input_ignored_during_turn e g :
  flip_active (flip (host_book g)) = true ->
  match e with
  | AnimationFrame _ _ => True
  | _ => host_book (fst (handle e g)) = host_book g /\ snd (handle e g) = None
  end.
Proof.
  intros Ha. destruct e as [x y t | x y t hit tf | hits t | key t | tc tf];
    cbn [handle]; try done.
  - unfold onPointerUp. by rewrite Ha.
  - unfold toggleCoverFromPointer. by rewrite Ha.
  - unfold onKeyDown.
    assert (E : toggleCover t (host_book g) = host_book g).
    { unfold toggleCover. by rewrite Ha. }
    rewrite E.
    destruct (String.eqb key "c" || String.eqb key "C"); by rewrite Ha.
Qed.

(** ** The host never gets the book stuck *)

(** X14.  Whatever pointer, keyboard and frame events the host has handled
    since construction, the next event is handled without an exception; a
    turn that is active has its hinge, and the frame whose [update] finds it
    complete (the progress it computes is [>= 1]) ends it. *)
Theorem host_never_stuck config s0 (es : list HostEvent) e tc tf :
  construct config = inl s0 ->
  let g := play es (host_of s0) in
  let b := host_book g in
  snd (handle e g) = None /\
  (flip_active (flip b) = true ->
   is_Some (flip_pivot (flip b)) /\
   (js_ge (flip_u tf b) 1 = true ->
    flip_active (flip (host_book (fst (handle (AnimationFrame tc tf) g)))) = false)).
Proof.
  intros Hc g b.
  pose proof (play_ok es _ (host_of_ok _ _ Hc)) as (I & S & H). fold g in I, S, H.
  fold b in I, S, H.
  split; [by apply handle_ok |].
  intros Ha. destruct (H Ha) as [h Hp]. split; [by exists h |].
  intros Hu. cbn [handle animate fst host_book with_book]. fold b.
  destruct (update_turn_complete h tc tf b I Ha Hp Hu) as (s' & -> & E & _).
  cbn [fst]. destruct E as [_ E2 _ _ _ _ _ _ _ _ _ _ _ _ _ _]. by rewrite E2.
Qed.

(** ** A turn and its way back *)

Lemma update_complete_state h tc tf s :
  inv s -> shown s ->
  flip_active (flip s) = true -> flip_pivot (flip s) = Some h ->
  js_ge (flip_u tf s) 1 = true ->
  let s' := fst (update tc tf s) in
  inv s' /\ shown s' /\ flip_active (flip s') = false /\ cover s' = cover s /\
  spreadIndex s' = fadd (spreadIndex s) (flip_dir (flip s)) /\
  spreads s' = spreads s /\ speeds_flip s' = speeds_flip s.
Proof.
  intros I S Ha Hp Hu s'.
  pose proof (update_inv tc tf s I) as I'.
  pose proof (call_shown (CallUpdate tc tf) s I S) as S'. cbn [call] in S'.
  destruct (update_turn_complete h tc tf s I Ha Hp Hu)
    as (x & Hx & E & Hidx & Hsp & Hsf & _).
  subst s'. rewrite Hx in *. cbn [fst] in *.
  destruct (update_cover_frame tc s)
    as (_ & _ & _ & _ & F5 & _ & _ & _ & _ & _ & _ & F12 & _).
  pose proof (inv_turn _ (update_cover_inv tc s I)) as T. rewrite F5, Hp in T.
  destruct (advance_frame h tf _ T) as (_ & _ & _ & _ & A5 & _).
  destruct E as [_ E2 _ _ _ _ _ _ _ _ _ _ _ _ _ E16].
  split_and!; try done.
  - by rewrite E2.
  - rewrite E16, A5. apply F12. by apply (inv_exclusive _ I).
Qed.

Lemma flipPage_start_state dir t s :
  inv s -> shown s -> isInteger dir = true -> flip_accepts dir s = true ->
  let s' := fst (flipPage dir t s) in
  inv s' /\ shown s' /\ started dir t s s' /\
  flip_pivot (flip s') = Some (hinge_of_dir dir).
Proof.
  intros I S Hint G s'.
  destruct (integral_target dir s I Hint G) as [[n sp] Hat].
  destruct (flipPage_accepted dir t s I G) as (St & I' & _ & C).
  rewrite Hat in C. destruct C as [_ C].
  split_and!; try done. by apply flipPage_shown.
Qed.

Section ThereAndBack.

Variable config : BookConfig.
Variable s0 : Book.
Hypothesis constructed : construct config = inl s0.
Variable cs : list Call.

Let s : Book := run cs s0.

(** X15.  In a book of at most [2^53] spreads, a forward turn followed by a
    backward turn, each taken to completion (by an [update] that finds it
    complete), brings the book back to the spread it started from, with the
    same textures on the static pages, the cover untouched and no turn
    active. *)
Theorem turn_there_and_back t1 tc1 tf1 t2 tc2 tf2 :
  cover_open (cover s) = true -> cover_anim (cover s) = false ->
  flip_active (flip s) = false ->
  spreadIndex s + 1 < of_nat (length (spreads s)) ->
  of_nat (length (spreads s)) <= 2 ^ 53 ->
  let s1 := fst (flipPage 1 t1 s) in
  let s2 := fst (update tc1 tf1 s1) in
  let s3 := fst (flipPage (-1) t2 s2) in
  let s4 := fst (update tc2 tf2 s3) in
  js_ge (flip_u tf1 s1) 1 = true -> js_ge (flip_u tf2 s3) 1 = true ->
  spreadIndex s2 == spreadIndex s + 1 /\
  spreadIndex s4 == spreadIndex s /\
  map_of leftMat s4 = map_of leftMat s /\
  map_of rightMat s4 = map_of rightMat s /\
  cover s4 = cover s /\ flip_active (flip s4) = false.
Proof.
  intros Hopen Hanim Hact Hnext Hsmall s1 s2 s3 s4 U1 U3. subst s1 s2 s3 s4.
  set (s2 := fst (update tc1 tf1 (fst (flipPage 1 t1 s)))) in *.
  set (s4 := fst (update tc2 tf2 (fst (flipPage (-1) t2 s2)))).
  pose proof (run_inv cs s0 (construct_inv _ _ constructed)) as I.
  pose proof (run_shown cs s0 (construct_inv _ _ constructed)
                (construct_shown _ _ constructed)) as S.
  fold s in I, S.
  destruct (inv_index _ I) as (n & Hn & Hlt).
  destruct (index_bounds _ _ _ Hn Hlt) as [Hi0 _].
  pose proof (array_index_isInteger _ _ Hn) as Hint.
  (* forward *)
  assert (E1 : fadd (spreadIndex s) 1 == spreadIndex s + 1).
  { apply round_small_integer; [by apply isInteger_plus | |].
    - apply Qlt_le_trans with 0; [reflexivity |].
      apply Qle_trans with (spreadIndex s); [done |].
      rewrite <- (Qplus_0_r (spreadIndex s)) at 1. by apply Qplus_le_r.
    - by eapply Qlt_le_trans. }
  assert (G1 : flip_accepts 1 s = true).
  { apply flip_accepts_true. rewrite E1. split_and!; try done.
    apply Qle_trans with (spreadIndex s); [done |].
    rewrite <- (Qplus_0_r (spreadIndex s)) at 1. by apply Qplus_le_r. }
  destruct (flipPage_start_state 1 t1 s I S eq_refl G1)
    as (I1 & S1 & [A1 D1 T1 X1 P1 F1 _ C1 _] & H1).
  destruct (update_complete_state _ tc1 tf1 _ I1 S1 A1 H1 U1)
    as (I2 & S2 & A2 & C2 & X2 & P2 & F2).
  fold s2 in I2, S2, A2, C2, X2, P2, F2.
  rewrite X1, D1 in X2.
  (* backward *)
  assert (E2 : fadd (spreadIndex s2) (-1) == spreadIndex s).
  { rewrite X2.
    assert (Eb : fadd (spreadIndex s) 1 + -1 == spreadIndex s) by (rewrite E1; ring).
    rewrite <- Eb at 2. apply round_small_integer.
    - apply isInteger_plus; [| done]. apply round_integer. by apply isInteger_plus.
    - rewrite Eb. by apply Qlt_le_trans with 0.
    - rewrite Eb. apply Qle_lt_trans with (spreadIndex s + 1).
      + rewrite <- (Qplus_0_r (spreadIndex s)) at 1. by apply Qplus_le_r.
      + by eapply Qlt_le_trans. }
  assert (G2 : flip_accepts (-1) s2 = true).
  { apply flip_accepts_true. rewrite C2, C1, E2, P2, P1.
    split_and!; try done.
    apply array_index_value in Hn. rewrite Hn. by apply of_nat_lt. }
  destruct (flipPage_start_state (-1) t2 s2 I2 S2 eq_refl G2)
    as (I3 & S3 & [A3 D3 T3 X3 P3 F3 _ C3 _] & H3).
  destruct (update_complete_state _ tc2 tf2 _ I3 S3 A3 H3 U3)
    as (I4 & S4 & A4 & C4 & X4 & P4 & F4).
  fold s4 in I4, S4, A4, C4, X4, P4, F4.
  rewrite X3, D3 in X4.
  assert (E4 : spreadIndex s4 == spreadIndex s) by (by rewrite X4).
  assert (M : map_of leftMat s4 = map_of leftMat s /\
              map_of rightMat s4 = map_of rightMat s).
  { destruct (shown_pages _ S) as (m & sp & Hat & L & R).
    destruct (shown_pages _ S4) as (m4 & sp4 & Hat4 & L4 & R4).
    apply spread_at_Some in Hat as [Hm Hsp].
    apply spread_at_Some in Hat4 as [Hm4 Hsp4].
    pose proof (array_index_Qeq _ _ _ E4 Hm4) as Hm'.
    assert (m4 = m) as -> by congruence.
    rewrite P4, P3, P2, P1 in Hsp4.
    assert (sp4 = sp) as -> by congruence.
    split; congruence. }
  destruct M as [ML MR].
  split_and!; try done.
  - by rewrite X2.
  - congruence.
Qed.

(** ** The fold of the cover *)


End ThereAndBack.

End Further.

(** * Exact arithmetic *)

Section ExactArithmetic.

#[local] Existing Instance unrounded.

(** ** Progress of a turn *)




(** ** The easing curve *)

Lemma easeInOut_low x : x < 1 # 2 -> easeInOut x = 4 * x * x * x.
Proof. intros H. unfold easeInOut. unround. apply js_lt_true in H. by rewrite H. Qed.



Lemma cube_low x : 4 * x * x * x == 4 * (x * x * x).
Proof. ring. Qed.





Lemma easeInOut_0 u : u == 0 -> easeInOut u == 0.
Proof.
  intros H. rewrite easeInOut_low by (rewrite H; reflexivity).
  rewrite cube_low, H. reflexivity.
Qed.

(** ** Angles *)




Section ReachedTurn.

Variable config : BookConfig.
Variable s0 : Book.
Hypothesis constructed : construct config = inl s0.
Variable cs : list Call.

Let s : Book := run cs s0.

Variable h : Hinge.
Hypothesis active : flip_active (flip s) = true.
Hypothesis hinge : flip_pivot (flip s) = Some h.
Hypothesis duration : 0 < speeds_flip s.



End ReachedTurn.

(** ** The fold of the cover *)


Section CoverFold.

Variable config : BookConfig.
Variable s0 : Book.
Hypothesis constructed : construct config = inl s0.
Variable cs : list Call.

Let s : Book := run cs s0.


End CoverFold.

End ExactArithmetic.

(** ** The further properties at work on the sample books *)

Section FurtherSamples.

#[local] Existing Instance binary64.

(** During the first forward turn of the sample book. *)
Lemma animations_exclusive_witness :
  let s := run [CallFlipPage 1 0] book3 in
  cover_anim (cover s) = false /\ cover_open (cover s) = true.
Proof.
  intros s.
  apply (animations_exclusive config3 book3 book3_constructed [CallFlipPage 1 0]).
  vm_compute. reflexivity.
Defined.

(** After the sample session. *)
Lemma static_pages_show_current_spread_witness :
  let s := run session book3 in
  exists n sp,
    spread_at (spreadIndex s) s = Some (n, sp) /\
    map_of leftMat s = left sp /\ map_of rightMat s = right sp /\
    is_Some (left sp) /\ is_Some (right sp).
Proof.
  exact (static_pages_show_current_spread config3 book3 book3_constructed session).
Defined.

(** The sheet of the first forward turn. *)
Lemma turning_sheet_faces_witness :
  let s := run [CallFlipPage 1 0] book3 in
  exists f b,
    children (pivot pivotR s) = [f; b] /\
    mesh_side f = FrontSide /\ mesh_side b = BackSide.
Proof.
  intros s.
  destruct (turning_sheet_faces config3 book3 book3_constructed
              [CallFlipPage 1 0] pivotR)
    as (f & b & n & cur & m & next & tx & serial & _ & _ & A & _ & _ & B & _ & _
        & _ & C & _).
  - vm_compute. reflexivity.
  - exists f, b. split_and!; [exact A | exact B | exact C].
Defined.

(** The cache entry made by the first forward turn. *)
Lemma flipped_cache_coherent_witness :
  let s := run [CallFlipPage 1 0] book3 in
  exists h n sp tx serial,
    "flip:1:left" = cacheId_of h n /\ spreads s !! n = Some sp /\
    far_side h sp = Some tx /\ FlipXClone 0 (Tex 2) = FlipXClone serial tx.
Proof.
  intros s.
  apply (flipped_cache_coherent config3 book3 book3_constructed
           [CallFlipPage 1 0] "flip:1:left" (FlipXClone 0 (Tex 2))).
  vm_compute. reflexivity.
Defined.

(** The sample book after a completed turn. *)
Lemma idle_book_at_rest_witness :
  let s := run [CallFlipPage 1 0; CallUpdate 1200 1200] book3 in
  visible leftPage s = true /\ visible rightPage s = true /\
  visible underLeft s = false /\ visible underRight s = false /\
  children (pivotL_node s) = [] /\ children (pivotR_node s) = [] /\
  flip_frontMesh (flip s) = None /\ flip_backMesh (flip s) = None.
Proof.
  intros s.
  apply (idle_book_at_rest config3 book3 book3_constructed
           [CallFlipPage 1 0; CallUpdate 1200 1200]).
  vm_compute. reflexivity.
Defined.

(** After the sample session. *)
Lemma notices_in_sync_witness :
  let s := run session book3 in
  last_spread_notice (notices s) = Some (spreadIndex s, length (spreads s)) /\
  default true (last_cover_notice (notices s)) = cover_open (cover s).
Proof.
  exact (notices_in_sync config3 book3 book3_constructed session).
Defined.

(** [flipPage(2)] during the turn started by [flipPage(1)], and the end of
    that turn. *)
Lemma integral_runs_never_stuck_witness :
  let s := run [CallFlipPage 1 0] book3 in
  snd (call (CallFlipPage 2 100) s) = None /\
  is_Some (flip_pivot (flip s)) /\
  flip_active (flip (fst (update 1200 1200 s))) = false.
Proof.
  intros s.
  destruct (integral_runs_never_stuck config3 book3 book3_constructed
              [CallFlipPage 1 0] (CallFlipPage 2 100) 1200 1200)
    as [A B].
  - repeat constructor.
  - reflexivity.
  - destruct B as [B C]; [vm_compute; reflexivity |].
    split_and!; [exact A | exact B |].
    apply C. vm_compute. reflexivity.
Defined.

(** The sample book, closed, then asked to turn. *)
Lemma closed_book_keeps_spread_witness :
  let s := run [CallToggleCover 0] book3 in
  let s' := run [CallUpdate 2000 2000; CallFlipPage 1 2100] s in
  spreadIndex s' = spreadIndex s /\ cover_open (cover s') = false /\
  flip_active (flip s') = false /\
  map_of leftMat s' = map_of leftMat s /\ map_of rightMat s' = map_of rightMat s.
Proof.
  intros s s'.
  apply (closed_book_keeps_spread config3 book3 book3_constructed
           [CallToggleCover 0] [CallUpdate 2000 2000; CallFlipPage 1 2100]).
  - vm_compute. reflexivity.
  - repeat constructor.
Defined.

(** [setSpread(7)] on the sample book of three spreads. *)
Lemma setSpread_clamps_witness :
  let s' := fst (setSpread 7 book3) in
  snd (setSpread 7 book3) = None /\
  spreadIndex s' = of_nat (length (spreads book3)) - 1.
Proof.
  intros s'.
  destruct (setSpread_clamps 7 book3) as (A & _ & _ & B & _).
  - vm_compute. reflexivity.
  - vm_compute. reflexivity.
  - split; [exact A |]. apply B. vm_compute. reflexivity.
Defined.

(** The key of the second spread's left page. *)
Lemma cache_keys_distinct_witness : pivotR = pivotR /\ 1%nat = 1%nat.
Proof. apply (cache_keys_distinct pivotR 1 pivotR 1). reflexivity. Defined.

(** The key [c] during the first forward turn. *)
Lemma input_ignored_during_turn_witness :
  let g := host_of (run [CallFlipPage 1 0] book3) in
  host_book (fst (handle (KeyDown "c" 100) g)) = host_book g /\
  snd (handle (KeyDown "c" 100) g) = None.
Proof.
  intros g.
  apply (input_ignored_during_turn (KeyDown "c" 100) g).
  vm_compute. reflexivity.
Defined.

(** The right arrow, then a click on the left page, then the frame that ends
    the turn. *)
Lemma host_never_stuck_witness :
  let g := play [KeyDown "ArrowRight" 0] (host_of book3) in
  snd (handle (PointerUp 0 0 100 (Some "leftPage") 100) g) = None /\
  flip_active (flip (host_book (fst (handle (AnimationFrame 1200 1200) g)))) = false.
Proof.
  intros g.
  destruct (host_never_stuck config3 book3 [KeyDown "ArrowRight" 0]
              (PointerUp 0 0 100 (Some "leftPage") 100) 1200 1200
              book3_constructed) as [A B].
  split; [exact A |].
  destruct B as [_ B]; [vm_compute; reflexivity |].
  apply B. vm_compute. reflexivity.
Defined.

(** Forward from the first spread of the sample book and back. *)
Lemma turn_there_and_back_witness :
  let s := run [] book3 in
  let s2 := fst (update 1200 1200 (fst (flipPage 1 0 s))) in
  let s4 := fst (update 2500 2500 (fst (flipPage (-1) 1300 s2))) in
  spreadIndex s2 == spreadIndex s + 1 /\
  spreadIndex s4 == spreadIndex s /\
  map_of leftMat s4 = map_of leftMat s /\
  map_of rightMat s4 = map_of rightMat s /\
  cover s4 = cover s /\ flip_active (flip s4) = false.
Proof.
  apply (turn_there_and_back config3 book3 book3_constructed [] 0 1200 1200
           1300 2500 2500).
  - vm_compute. reflexivity.
  - vm_compute. reflexivity.
  - vm_compute. reflexivity.
  - vm_compute. reflexivity.
  - vm_compute. discriminate.
  - vm_compute. reflexivity.
  - vm_compute. reflexivity.
Defined.

End FurtherSamples.

(** ** The properties of exact arithmetic at work on the sample book *)

Section ExactSamples.

#[local] Existing Instance unrounded.





End ExactSamples.
